(** * SFMT (SIMD-oriented Fast Mersenne Twister) as built into CvGameCoreDLL

    A shallow embedding of [SFMT.cpp]: seeding by a 32-bit integer and by a
    key array, period certification, the guarded bulk-fill entry points and
    the equality operators of [SFMersenneTwister].

    Conventions.
    - [uint32_t] values are integers in [0, 2^32); every operation that can
      leave that range is followed by [u32].
    - [int] values are plain integers (signed overflow is undefined and
      does not occur for key lengths below [2^31 - 1]); the one place where
      an [int] receives a value with bit 31 set ([inner] in
      [period_certification]) goes through [to_int], and [>>] on it is the
      arithmetic shift.
    - [assert] is taken as enabled: a failed assertion ends the call.
    - [m_sfmt.state] is seen through [psfmt32 = &m_sfmt.state[0].u[0]] as a
      flat array of [SFMT_N32] 32-bit words; the 128-bit word [k] is made of
      the lanes [4k .. 4k+3]. *)

From Stdlib Require Import ZArith Lia Bool List Btauto.
From stdpp Require Import base numbers list.
Import ListNotations.

Local Open Scope Z_scope.

(** ** Machine integers *)

Definition u32 (x : Z) : Z := x mod 2 ^ 32.

(** Conversion of a 32-bit pattern to [int] (two's complement). *)
Definition to_int (x : Z) : Z :=
  let y := u32 x in if y <? 2 ^ 31 then y else y - 2 ^ 32.

(** ** Arrays of words, indexed by C integers *)

Definition rd (a : list Z) (i : Z) : Z := default 0 (a !! Z.to_nat i).
Definition wr (a : list Z) (i : Z) (v : Z) : list Z := <[Z.to_nat i := v]> a.

(** [for (i = lo; i < hi; i++) body] with a body that leaves [i] alone. *)
Definition zrange (lo hi : Z) : list Z :=
  map (fun k => lo + Z.of_nat k) (seq 0 (Z.to_nat (hi - lo))).

Definition for_range {S : Type} (lo hi : Z) (body : Z -> S -> S) (s : S) : S :=
  fold_left (fun acc i => body i acc) (zrange lo hi) s.

(** ** Generator instance: [sfmt_t] *)

Record sfmt_t : Type := mk_sfmt { state : list Z; idx : Z }.

(** ** The two diffusion functions of [sfmt_init_by_array] *)

Definition func1 (x : Z) : Z := u32 (Z.lxor x (Z.shiftr x 27) * 1664525).
Definition func2 (x : Z) : Z := u32 (Z.lxor x (Z.shiftr x 27) * 1566083941).

(** [for (i = 16; i > 0; i >>= 1) inner ^= inner >> i;] on an [int]. *)
Fixpoint fold_shifts (fuel : nat) (i inner : Z) : Z :=
  match fuel with
  | O => inner
  | S fuel' =>
      if 0 <? i
      then fold_shifts fuel' (Z.shiftr i 1) (Z.lxor inner (Z.shiftr inner i))
      else inner
  end.

(** Outcome of a call: a value, a read past the end of the caller's key
    array, a failed [assert], or a loop model that ran out of fuel. *)
Inductive result (A : Type) : Type :=
  | Ok (a : A)
  | KeyFault
  | AssertFail
  | OutOfFuel.
Arguments Ok {A} a.
Arguments KeyFault {A}.
Arguments AssertFail {A}.
Arguments OutOfFuel {A}.

(** ** A concrete parameter set

    The comments of the bulk-fill functions give 624 and 312 as the minimum
    array sizes, which is the parameter set of Mersenne exponent 19937:
    156 words of 128 bits, and the parity words of that set.  The concrete
    instances below are taken at these values. *)
Definition N19937 : Z := 156.
Definition PARITY1_19937 : Z := 0x00000001.
Definition PARITY2_19937 : Z := 0x00000000.
Definition PARITY3_19937 : Z := 0x00000000.
Definition PARITY4_19937 : Z := 0x13c9e684.
Definition POS1_19937 : Z := 122.

(** A stand-in for the 128-bit recursion in the concrete instances: the
    lane-wise XOR of the four operands. *)
Definition xor_recursion (a b c d : list Z) : list Z :=
  zip_with Z.lxor (zip_with Z.lxor a b) (zip_with Z.lxor c d).

(** Storage as a constructor may leave it: every word [v], index [i]. *)
Definition raw_instance (v i : Z) : sfmt_t :=
  mk_sfmt (replicate 624 v) i.

(** The key of the reference test program. *)
Definition sample_key : list Z := [0x1234; 0x5678; 0x9abc; 0xdef0].

Section Generator.

(** The parameter set of [SFMT-params.h], which this translation unit only
    includes: the number of 128-bit words and the four parity words. *)
Variable SFMT_N : Z.
Variables SFMT_PARITY1 SFMT_PARITY2 SFMT_PARITY3 SFMT_PARITY4 : Z.

(** Modelled from the spec: the derived sizes of the missing
    [SFMT-params.h]; a 128-bit state word is four 32-bit lanes or two 64-bit
    lanes, so [N32 = 4 N] and [N64 = 2 N] ([sfmt_init_by_array] itself uses
    [SFMT_N * 4] as the size in 32-bit words). *)
Definition SFMT_N32 : Z := SFMT_N * 4.
Definition SFMT_N64 : Z := SFMT_N * 2.

(** [const uint32_t parity[4] = {SFMT_PARITY1, ..., SFMT_PARITY4};] *)
Definition parity : list Z :=
  [u32 SFMT_PARITY1; u32 SFMT_PARITY2; u32 SFMT_PARITY3; u32 SFMT_PARITY4].

(** ** [period_certification] *)

(** [for (; i < 4; i++) inner ^= psfmt32[i] & parity[i];]  The right operand
    is unsigned, so the xor is done on 32-bit patterns and stored back into
    the [int]. *)
Definition inner_product (psfmt32 : list Z) : Z :=
  for_range 0 4
    (fun i inner =>
       to_int (Z.lxor (u32 inner) (Z.land (rd psfmt32 i) (rd parity i))))
    0.

(** The value of [inner] when the test [inner == 1] is reached. *)
Definition inner_bit (psfmt32 : list Z) : Z :=
  Z.land (fold_shifts 32 16 (inner_product psfmt32)) 1.

(** The loop over [j]: [Some] is the early [return] with the modified array,
    [None] means the loop ran to [j = 32]. *)
Fixpoint scan_j (n : nat) (i work : Z) (psfmt32 : list Z) : option (list Z) :=
  match n with
  | O => None
  | S n' =>
      if negb (Z.land work (rd parity i) =? 0)
      then Some (wr psfmt32 i (Z.lxor (rd psfmt32 i) work))
      else scan_j n' i (u32 (Z.shiftl work 1)) psfmt32
  end.

(** The loop over [i], each round starting with [work = 1]. *)
Fixpoint scan_i (n : nat) (i : Z) (psfmt32 : list Z) : option (list Z) :=
  match n with
  | O => None
  | S n' =>
      match scan_j 32 i 1 psfmt32 with
      | Some p => Some p
      | None => scan_i n' (i + 1) psfmt32
      end
  end.

Definition period_certification (g : sfmt_t) : sfmt_t :=
  if inner_bit (state g) =? 1 then g
  else match scan_i 4 0 (state g) with
       | Some p => mk_sfmt p (idx g)
       | None => g
       end.

(** ** [sfmt_init_gen_rand] *)

(** Body of the loop:
    [psfmt32[i] = 1812433253UL * (psfmt32[i-1] ^ (psfmt32[i-1] >> 30)) + i]. *)
Definition seed_body (i : Z) (psfmt32 : list Z) : list Z :=
  wr psfmt32 i
     (u32 (1812433253
           * Z.lxor (rd psfmt32 (i - 1)) (Z.shiftr (rd psfmt32 (i - 1)) 30)
           + i)).

Definition sfmt_init_gen_rand (seed : Z) (g : sfmt_t) : sfmt_t :=
  let psfmt32 := wr (state g) 0 seed in
  let psfmt32 := for_range 1 SFMT_N32 seed_body psfmt32 in
  period_certification (mk_sfmt psfmt32 SFMT_N32).

(** ** [sfmt_init_by_array] *)

(** The local variables that the three mixing loops share. *)
Record mix_st : Type :=
  mk_mix { m_psfmt32 : list Z; m_r : Z; m_i : Z; m_j : Z }.

Definition lag_of (size : Z) : Z :=
  if 623 <=? size then 11
  else if 68 <=? size then 7
  else if 39 <=? size then 5
  else 3.

(** Body of the first loop; [k] is [init_key[j]]. *)
Definition key_step (mid lag k : Z) (s : mix_st) : mix_st :=
  let p := m_psfmt32 s in
  let i := m_i s in
  let r := func1 (Z.lxor (Z.lxor (rd p i) (rd p (Z.rem (i + mid) SFMT_N32)))
                         (rd p (Z.rem (i + SFMT_N32 - 1) SFMT_N32))) in
  let p := wr p (Z.rem (i + mid) SFMT_N32)
              (u32 (rd p (Z.rem (i + mid) SFMT_N32) + r)) in
  let r := u32 (r + u32 (k + i)) in
  let p := wr p (Z.rem (i + mid + lag) SFMT_N32)
              (u32 (rd p (Z.rem (i + mid + lag) SFMT_N32) + r)) in
  let p := wr p i r in
  mk_mix p r (Z.rem (i + 1) SFMT_N32) (m_j s + 1).

(** Body of the second loop. *)
Definition idx_step (mid lag : Z) (s : mix_st) : mix_st :=
  let p := m_psfmt32 s in
  let i := m_i s in
  let r := func1 (Z.lxor (Z.lxor (rd p i) (rd p (Z.rem (i + mid) SFMT_N32)))
                         (rd p (Z.rem (i + SFMT_N32 - 1) SFMT_N32))) in
  let p := wr p (Z.rem (i + mid) SFMT_N32)
              (u32 (rd p (Z.rem (i + mid) SFMT_N32) + r)) in
  let r := u32 (r + i) in
  let p := wr p (Z.rem (i + mid + lag) SFMT_N32)
              (u32 (rd p (Z.rem (i + mid + lag) SFMT_N32) + r)) in
  let p := wr p i r in
  mk_mix p r (Z.rem (i + 1) SFMT_N32) (m_j s + 1).

(** Body of the third loop. *)
Definition fin_step (mid lag : Z) (s : mix_st) : mix_st :=
  let p := m_psfmt32 s in
  let i := m_i s in
  let r := func2 (u32 (u32 (rd p i + rd p (Z.rem (i + mid) SFMT_N32))
                       + rd p (Z.rem (i + SFMT_N32 - 1) SFMT_N32))) in
  let p := wr p (Z.rem (i + mid) SFMT_N32)
              (Z.lxor (rd p (Z.rem (i + mid) SFMT_N32)) r) in
  let r := u32 (r - i) in
  let p := wr p (Z.rem (i + mid + lag) SFMT_N32)
              (Z.lxor (rd p (Z.rem (i + mid + lag) SFMT_N32)) r) in
  let p := wr p i r in
  mk_mix p r (Z.rem (i + 1) SFMT_N32) (m_j s + 1).

(** [for (; (j < count) && (j < key_length); j++) { ... init_key[j] ... }] *)
Fixpoint key_loop (fuel : nat) (init_key : list Z) (key_length count : Z)
    (mid lag : Z) (s : mix_st) : result mix_st :=
  match fuel with
  | O => OutOfFuel
  | S fuel' =>
      if (m_j s <? count) && (m_j s <? key_length)
      then match init_key !! Z.to_nat (m_j s) with
           | Some k =>
               key_loop fuel' init_key key_length count mid lag
                 (key_step mid lag k s)
           | None => KeyFault
           end
      else Ok s
  end.

(** [for (; j < count; j++) { ... }] *)
Fixpoint idx_loop (fuel : nat) (count mid lag : Z) (s : mix_st)
    : result mix_st :=
  match fuel with
  | O => OutOfFuel
  | S fuel' =>
      if m_j s <? count
      then idx_loop fuel' count mid lag (idx_step mid lag s)
      else Ok s
  end.

(** [if (key_length + 1 > SFMT_N32) count = key_length + 1;
     else count = SFMT_N32;] *)
Definition count_of (key_length : Z) : Z :=
  if SFMT_N32 <? key_length + 1 then key_length + 1 else SFMT_N32.

(** The [memset] and the straight-line mixing of words [0], [mid] and
    [mid + lag] that precede the loops, ending at [i = 1], [j = 0].  The
    [memset] also covers [m_sfmt.idx], which is assigned again before the
    function returns. *)
Definition initial_mix (key_length mid lag : Z) : mix_st :=
  (* memset(&m_sfmt, 0x8b, sizeof(sfmt_t)) *)
  let p := replicate (Z.to_nat SFMT_N32) 0x8b8b8b8b in
  let r := func1 (Z.lxor (Z.lxor (rd p 0) (rd p mid))
                         (rd p (SFMT_N32 - 1))) in
  let p := wr p mid (u32 (rd p mid + r)) in
  let r := u32 (r + key_length) in
  let p := wr p (mid + lag) (u32 (rd p (mid + lag) + r)) in
  let p := wr p 0 r in
  mk_mix p r 1 0.

(** The function up to and including the second loop: the state of the
    locals on entry to the [func2] pass. *)
Definition init_by_array_phase1 (init_key : list Z) (key_length : Z)
    : result mix_st :=
  let size := SFMT_N * 4 in
  let lag := lag_of size in
  let mid := Z.quot (size - lag) 2 in
  let count := count_of key_length in
  let s := initial_mix key_length mid lag in
  let count := count - 1 in
  let fuel := S (Z.to_nat count) in
  match key_loop fuel init_key key_length count mid lag s with
  | Ok s => idx_loop fuel count mid lag s
  | e => e
  end.

Definition sfmt_init_by_array (init_key : list Z) (key_length : Z)
    (g : sfmt_t) : result sfmt_t :=
  let size := SFMT_N * 4 in
  let lag := lag_of size in
  let mid := Z.quot (size - lag) 2 in
  match init_by_array_phase1 init_key key_length with
  | Ok s =>
      (* for (j = 0; j < SFMT_N32; j++) *)
      let s := for_range 0 SFMT_N32 (fun _ s => fin_step mid lag s)
                 (mk_mix (m_psfmt32 s) (m_r s) (m_i s) 0) in
      Ok (period_certification (mk_sfmt (m_psfmt32 s) SFMT_N32))
  | KeyFault => KeyFault
  | AssertFail => AssertFail
  | OutOfFuel => OutOfFuel
  end.

(** ** [operator==] and [operator!=] *)

(** The sixteen bytes of the [si] member of 128-bit word [k]: the four lanes
    [u[0..3]], each least-significant byte first (the SSE2 build is
    little-endian). *)
Definition byte_of (w b : Z) : Z := Z.land (Z.shiftr w (8 * b)) 255.

Definition si_bytes (st : list Z) (k : Z) : list Z :=
  flat_map (fun l => map (byte_of (rd st (4 * k + l))) [0; 1; 2; 3])
           [0; 1; 2; 3].

(** [_mm_cmpeq_epi8]: byte-wise equality, 0xFF where equal, 0 elsewhere. *)
Definition mm_cmpeq_epi8 (a b : list Z) : list Z :=
  zip_with (fun x y => if x =? y then 255 else 0) a b.

(** [_mm_movemask_epi8]: bit [k] of the result is the top bit of byte [k]. *)
Definition mm_movemask_epi8 (a : list Z) : Z :=
  fold_right (fun x acc => Z.lor (Z.shiftr x 7) (Z.shiftl acc 1)) 0 a.

(** The comparison loop; [Some k] is the [return false] taken at word [k],
    [None] means the loop ran to [SFMT_N]. *)
Fixpoint cmp_loop (n : nat) (uiI : Z) (lhs rhs : list Z) : option Z :=
  match n with
  | O => None
  | S n' =>
      if negb (mm_movemask_epi8
                 (mm_cmpeq_epi8 (si_bytes lhs uiI) (si_bytes rhs uiI))
               =? 0xffff)
      then Some uiI
      else cmp_loop n' (uiI + 1) lhs rhs
  end.

Definition operator_eq (this source : sfmt_t) : bool :=
  if negb (idx this =? idx source) then false
  else match cmp_loop (Z.to_nat SFMT_N) 0 (state this) (state source) with
       | Some _ => false
       | None => true
       end.

Definition operator_ne (this source : sfmt_t) : bool :=
  negb (operator_eq this source).

(** ** Bulk generation *)

(** The recursion of [SFMT-sse2-msc.h] on 128-bit words (each a list of four
    lanes) and its offset [SFMT_POS1]; neither file is part of this
    translation unit's own text. *)
Variable SFMT_POS1 : Z.
Variable do_recursion : list Z -> list Z -> list Z -> list Z -> list Z.

Definition lanes (st : list Z) (k : Z) : list Z :=
  map (fun l => rd st (4 * k + l)) [0; 1; 2; 3].

(** Modelled from the spec: [gen_rand_array], defined in the missing
    [SFMT-sse2-msc.h].  Each new word at position [i] is computed from the
    words [i], [i + POS1], [i + N - 2] and [i + N - 1] of the state array
    virtually extended by the words produced so far; after [size] words the
    last [N] produced words become the state array. *)
Fixpoint extend (n : nat) (v : list (list Z)) : list (list Z) :=
  match n with
  | O => v
  | S n' =>
      let i := Z.of_nat (length v) - SFMT_N in
      let w := fun k => default [] (v !! Z.to_nat k) in
      extend n'
        (v ++ [do_recursion (w i) (w (i + SFMT_POS1))
                            (w (i + SFMT_N - 2)) (w (i + SFMT_N - 1))])
  end.

Definition gen_rand_array (st : list Z) (size : Z) : list Z * list Z :=
  let v := extend (Z.to_nat size) (map (lanes st) (zrange 0 SFMT_N)) in
  let produced := drop (Z.to_nat SFMT_N) v in
  (concat (drop (Z.to_nat (size - SFMT_N)) produced), concat produced).

(** [sfmt_fill_array32]: the new instance and the contents of [array]. *)
Definition sfmt_fill_array32 (size : Z) (g : sfmt_t)
    : result (sfmt_t * list Z) :=
  if negb (idx g =? SFMT_N32) then AssertFail
  else if negb (Z.rem size 4 =? 0) then AssertFail
  else if negb (SFMT_N32 <=? size) then AssertFail
  else
    let '(st, out) := gen_rand_array (state g) (Z.quot size 4) in
    Ok (mk_sfmt st SFMT_N32, out).

(** The buffer of 32-bit lanes read as 64-bit words, low lane first. *)
Fixpoint as_u64 (l : list Z) : list Z :=
  match l with
  | lo :: hi :: t => Z.lor lo (Z.shiftl hi 32) :: as_u64 t
  | _ => []
  end.

Definition sfmt_fill_array64 (size : Z) (g : sfmt_t)
    : result (sfmt_t * list Z) :=
  if negb (idx g =? SFMT_N32) then AssertFail
  else if negb (Z.rem size 2 =? 0) then AssertFail
  else if negb (SFMT_N64 <=? size) then AssertFail
  else
    let '(st, out) := gen_rand_array (state g) (Z.quot size 2) in
    Ok (mk_sfmt st SFMT_N32, as_u64 out).

(** ** Accessors *)

Definition sfmt_get_min_array_size32 : Z := SFMT_N32.
Definition sfmt_get_min_array_size64 : Z := SFMT_N64.

(** ** Call sequences *)

Inductive call : Type :=
  | InitGenRand (seed : Z)
  | InitByArray (init_key : list Z) (key_length : Z)
  | FillArray32 (size : Z)
  | FillArray64 (size : Z).

(** One call: the instance afterwards and the words handed to the caller. *)
Definition perform (c : call) (g : sfmt_t) : result (sfmt_t * list Z) :=
  match c with
  | InitGenRand seed => Ok (sfmt_init_gen_rand seed g, [])
  | InitByArray init_key key_length =>
      match sfmt_init_by_array init_key key_length g with
      | Ok g' => Ok (g', [])
      | KeyFault => KeyFault
      | AssertFail => AssertFail
      | OutOfFuel => OutOfFuel
      end
  | FillArray32 size => sfmt_fill_array32 size g
  | FillArray64 size => sfmt_fill_array64 size g
  end.

(** The observations made while driving an instance through a sequence of
    calls; the process stops at the first call that does not return. *)
Fixpoint drive (cs : list call) (g : sfmt_t)
    : list (result (sfmt_t * list Z)) :=
  match cs with
  | [] => []
  | c :: cs' =>
      match perform c g with
      | Ok (g', out) => Ok (g', out) :: drive cs' g'
      | e => [e]
      end
  end.

(** ** The behaviour the documentation describes, for comparison *)

(** Section 4.4: [inner] is the XOR over [i = 0..3] of
    [word[i] AND parity[i]], folded by [inner ^= inner >> shift] for the
    shifts 16, 8, 4, 2, 1 and masked to one bit. *)
Definition spec_inner (psfmt32 : list Z) : Z :=
  fold_left Z.lxor
    (map (fun i => Z.land (rd psfmt32 i) (rd parity i)) [0; 1; 2; 3]) 0.

Definition spec_fold (inner : Z) : Z :=
  fold_left (fun x shift => Z.lxor x (Z.shiftr x shift)) [16; 8; 4; 2; 1] inner.

Definition parity_fold (psfmt32 : list Z) : Z :=
  Z.land (spec_fold (spec_inner psfmt32)) 1.

(** Section 4.4: parity constants in index order, and within each the bit
    positions from the least significant one. *)
Definition scan_order : list (Z * Z) :=
  flat_map (fun i => map (fun j => (i, j)) (zrange 0 32)) [0; 1; 2; 3].

Definition first_parity_bit : option (Z * Z) :=
  find (fun ij => Z.testbit (rd parity (fst ij)) (snd ij)) scan_order.

Definition flip_bit (psfmt32 : list Z) (i j : Z) : list Z :=
  wr psfmt32 i (Z.lxor (rd psfmt32 i) (2 ^ j)).

Definition period_certification_spec (g : sfmt_t) : sfmt_t :=
  if parity_fold (state g) =? 1 then g
  else match first_parity_bit with
       | Some (i, j) => mk_sfmt (flip_bit (state g) i j) (idx g)
       | None => g
       end.

(** Section 4.2: [word[0] = seed] and
    [word[i] = 1812433253 * (word[i-1] XOR (word[i-1] >> 30)) + i]. *)
Fixpoint seed_word (seed : Z) (i : nat) : Z :=
  match i with
  | O => seed
  | S i' =>
      let w := seed_word seed i' in
      u32 (1812433253 * Z.lxor w (Z.shiftr w 30) + Z.of_nat i)
  end.

Definition seed_words (seed : Z) : list Z :=
  map (seed_word seed) (seq 0 (Z.to_nat SFMT_N32)).

(** Section 4.3, step 4: one diffusion step by [F1] at the rotating index
    [i], with [inj] the material injected in this step. *)
Definition diffuse1 (mid lag inj : Z) (s : mix_st) : mix_st :=
  let p := m_psfmt32 s in
  let i := m_i s in
  let a := (i + mid) mod SFMT_N32 in
  let b := (i + mid + lag) mod SFMT_N32 in
  let r := func1 (Z.lxor (Z.lxor (rd p i) (rd p a))
                         (rd p ((i + SFMT_N32 - 1) mod SFMT_N32))) in
  let p := wr p a (u32 (rd p a + r)) in
  let r := u32 (r + inj) in
  let p := wr p b (u32 (rd p b + r)) in
  mk_mix (wr p i r) r ((i + 1) mod SFMT_N32) (m_j s + 1).

(** What step [k] injects: the key element (with the running index) while
    key elements remain, the running index alone afterwards. *)
Definition inject (init_key : list Z) (k i : Z) : Z :=
  match init_key !! Z.to_nat k with
  | Some key => u32 (key + i)
  | None => i
  end.

Definition schedule_step (init_key : list Z) (mid lag : Z)
    (s : mix_st) (k : Z) : mix_st :=
  diffuse1 mid lag (inject init_key k (m_i s)) s.

(** What the mixing loops maintain: the rotating index stays inside the
    array and the array keeps its [SFMT_N32] words. *)
Definition mix_inv (s : mix_st) : Prop :=
  0 <= m_i s < SFMT_N32 /\ length (m_psfmt32 s) = Z.to_nat SFMT_N32.

(** Section 4.3, step 5: one step of the [F2] pass, written with the
    mathematical remainder. *)
Definition diffuse2 (mid lag : Z) (s : mix_st) : mix_st :=
  let p := m_psfmt32 s in
  let i := m_i s in
  let a := (i + mid) mod SFMT_N32 in
  let b := (i + mid + lag) mod SFMT_N32 in
  let r := func2 (u32 (rd p i + rd p a
                       + rd p ((i + SFMT_N32 - 1) mod SFMT_N32))) in
  let p := wr p a (Z.lxor (rd p a) r) in
  let r := u32 (r - i) in
  let p := wr p b (Z.lxor (rd p b) r) in
  mk_mix (wr p i r) r ((i + 1) mod SFMT_N32) (m_j s + 1).

(** The locals on entry to the third loop ([j = 0]). *)
Definition reset_j (s : mix_st) : mix_st :=
  mk_mix (m_psfmt32 s) (m_r s) (m_i s) 0.

(** Two observations of one call agree: the same words were handed out and
    the instances compare equal, or both calls stopped the same way. *)
Definition agree (r1 r2 : result (sfmt_t * list Z)) : Prop :=
  match r1, r2 with
  | Ok (g1, out1), Ok (g2, out2) => out1 = out2 /\ operator_eq g1 g2 = true
  | KeyFault, KeyFault => True
  | AssertFail, AssertFail => True
  | OutOfFuel, OutOfFuel => True
  | _, _ => False
  end.

(** A well-formed instance: [SFMT_N32] words, each a 32-bit value. *)
Definition is_u32 (x : Z) : Prop := 0 <= x < 2 ^ 32.

Definition wf_state (psfmt32 : list Z) : Prop :=
  length psfmt32 = Z.to_nat SFMT_N32 /\ Forall is_u32 psfmt32.

(** The XOR of the 32 low bits of [x]. *)
Definition bit_parity (x : Z) : bool :=
  fold_right xorb false (map (Z.testbit x) (zrange 0 32)).

(** The word that period certification may touch: the index of the first
    parity word with a set bit. *)
Definition corrected_word : Z :=
  match first_parity_bit with
  | Some (i, _) => i
  | None => 0
  end.

(** * Properties *)

(** ** Machine integers *)

Lemma u32_range x : is_u32 (u32 x).
Proof. unfold is_u32, u32. apply Z.mod_pos_bound. lia. Qed.

Lemma u32_small x : is_u32 x -> u32 x = x.
Proof. unfold is_u32, u32. intros H. apply Z.mod_small. lia. Qed.

Lemma u32_land_ones x : u32 x = Z.land x (Z.ones 32).
Proof. unfold u32. rewrite Z.land_ones by lia. reflexivity. Qed.

Lemma land_lxor_distr_r a b c :
  Z.land (Z.lxor a b) c = Z.lxor (Z.land a c) (Z.land b c).
Proof.
  apply Z.bits_inj'. intros n Hn.
  rewrite Z.land_spec, !Z.lxor_spec, !Z.land_spec.
  destruct (Z.testbit a n), (Z.testbit b n), (Z.testbit c n); reflexivity.
Qed.

Lemma is_u32_lxor a b : is_u32 a -> is_u32 b -> is_u32 (Z.lxor a b).
Proof.
  intros Ha Hb.
  rewrite <- (u32_small a Ha), <- (u32_small b Hb), !u32_land_ones.
  rewrite <- land_lxor_distr_r, <- u32_land_ones. apply u32_range.
Qed.

Lemma is_u32_land_r a b : is_u32 b -> is_u32 (Z.land a b).
Proof.
  intros Hb. rewrite <- (u32_small b Hb), u32_land_ones.
  rewrite Z.land_assoc, <- u32_land_ones. apply u32_range.
Qed.

Lemma u32_to_int x : u32 (to_int x) = u32 x.
Proof.
  unfold to_int. destruct (u32 x <? 2 ^ 31).
  - apply u32_small, u32_range.
  - unfold u32. rewrite Zminus_mod, Z_mod_same_full, Z.sub_0_r.
    rewrite !Z.mod_mod by lia. reflexivity.
Qed.

Lemma to_int_small x : is_u32 x -> u32 (to_int x) = x.
Proof. intros H. rewrite u32_to_int. apply u32_small, H. Qed.

(** ** Arrays *)

Lemma rd_wr_eq a i v : 0 <= i -> (Z.to_nat i < length a)%nat -> rd (wr a i v) i = v.
Proof.
  intros Hi Hlt. unfold rd, wr.
  rewrite list_lookup_insert_eq by exact Hlt. reflexivity.
Qed.

Lemma rd_wr_ne a i j v : 0 <= i -> 0 <= j -> i <> j -> rd (wr a i v) j = rd a j.
Proof.
  intros Hi Hj Hne. unfold rd, wr.
  rewrite list_lookup_insert_ne by lia. reflexivity.
Qed.

Lemma rd_lookup a i v : a !! Z.to_nat i = Some v -> rd a i = v.
Proof. unfold rd. intros ->. reflexivity. Qed.

Lemma length_wr a i v : length (wr a i v) = length a.
Proof. unfold wr. apply length_insert. Qed.

Lemma zrange_cons lo hi : lo < hi -> zrange lo hi = lo :: zrange (lo + 1) hi.
Proof.
  intros H. unfold zrange.
  replace (Z.to_nat (hi - lo)) with (S (Z.to_nat (hi - (lo + 1)))) by lia.
  cbn [seq map]. f_equal; [lia|].
  rewrite <- seq_shift, map_map. apply map_ext. intros k. lia.
Qed.

Lemma zrange_nil lo hi : hi <= lo -> zrange lo hi = [].
Proof.
  intros H. unfold zrange. replace (Z.to_nat (hi - lo)) with O by lia.
  reflexivity.
Qed.

Lemma zrange_snoc lo hi : lo <= hi -> zrange lo (hi + 1) = zrange lo hi ++ [hi].
Proof.
  intros H. unfold zrange.
  replace (Z.to_nat (hi + 1 - lo)) with (Z.to_nat (hi - lo) + 1)%nat by lia.
  rewrite seq_app, map_app. cbn [seq map]. do 2 f_equal. lia.
Qed.

(** ** The parity fold *)

Lemma fold_shifts_spec x : fold_shifts 32 16 x = spec_fold x.
Proof. reflexivity. Qed.

Lemma lxor_shift_lxor k a b :
  Z.lxor (Z.lxor a b) (Z.shiftr (Z.lxor a b) k)
  = Z.lxor (Z.lxor a (Z.shiftr a k)) (Z.lxor b (Z.shiftr b k)).
Proof.
  rewrite Z.shiftr_lxor. apply Z.bits_inj'. intros n Hn.
  rewrite !Z.lxor_spec. btauto.
Qed.

Lemma spec_fold_lxor a b :
  spec_fold (Z.lxor a b) = Z.lxor (spec_fold a) (spec_fold b).
Proof.
  unfold spec_fold. generalize [16; 8; 4; 2; 1]. intros l.
  revert a b. induction l as [|k l IH]; intros a b; cbn [fold_left].
  - reflexivity.
  - rewrite lxor_shift_lxor. apply IH.
Qed.

Lemma land_1_bit x : Z.land x 1 = Z.b2z (Z.testbit x 0).
Proof.
  change 1 with (Z.ones 1) at 1. rewrite Z.land_ones by lia.
  rewrite Z.bit0_mod. reflexivity.
Qed.

Lemma low_bit_lxor a b :
  Z.land (Z.lxor a b) 1 = Z.lxor (Z.land a 1) (Z.land b 1).
Proof. apply land_lxor_distr_r. Qed.

Lemma low_bit_pow2 j : 0 <= j < 32 -> Z.land (spec_fold (2 ^ j)) 1 = 1.
Proof.
  intros Hj. replace j with (Z.of_nat (Z.to_nat j)) by lia.
  assert (Hn : (Z.to_nat j < 32)%nat) by lia.
  revert Hn. generalize (Z.to_nat j). intros n Hn.
  do 32 (destruct n as [|n]; [vm_compute; reflexivity|]). lia.
Qed.

Lemma low_bit_congr a b :
  u32 a = u32 b -> Z.land (spec_fold a) 1 = Z.land (spec_fold b) 1.
Proof.
  intros Hab. rewrite !land_1_bit. f_equal.
  assert (Hbit : forall k, 0 <= k < 32 -> Z.testbit a k = Z.testbit b k).
  { intros k Hk. rewrite <- (Z.mod_pow2_bits_low a 32 k) by lia.
    rewrite <- (Z.mod_pow2_bits_low b 32 k) by lia.
    unfold u32 in Hab. rewrite Hab. reflexivity. }
  unfold spec_fold. cbn [fold_left].
  repeat (rewrite ?Z.lxor_spec; rewrite ?Z.shiftr_spec by lia).
  cbn [Z.add Pos.add Pos.succ Pos.add_carry].
  repeat match goal with
         | |- context [Z.testbit a ?k] => rewrite (Hbit k) by lia
         end.
  reflexivity.
Qed.

Lemma parity_in_range i : is_u32 (rd parity i).
Proof.
  unfold rd, parity.
  destruct (Z.to_nat i) as [|[|[|[|n]]]]; try apply u32_range.
  change (is_u32 0). unfold is_u32. lia.
Qed.

Lemma spec_inner_range st : is_u32 (spec_inner st).
Proof.
  unfold spec_inner. cbn [map fold_left].
  repeat apply is_u32_lxor; try (apply is_u32_land_r, parity_in_range).
  unfold is_u32. lia.
Qed.

(** The [int] accumulator of the first loop holds the same 32-bit pattern
    as the unsigned XOR of the four masked words. *)
Lemma inner_product_spec st : u32 (inner_product st) = spec_inner st.
Proof.
  unfold inner_product, for_range, spec_inner.
  change (zrange 0 4) with [0; 1; 2; 3]. cbn [map fold_left].
  change (u32 0) with 0.
  assert (Hl : forall a b, is_u32 a -> is_u32 (Z.lxor a (Z.land (rd st b) (rd parity b)))).
  { intros a b Ha. apply is_u32_lxor; [exact Ha|].
    apply is_u32_land_r, parity_in_range. }
  assert (H0 : is_u32 0) by (unfold is_u32; lia).
  rewrite (to_int_small _ (Hl 0 0 H0)).
  rewrite (to_int_small _ (Hl _ 1 (Hl 0 0 H0))).
  rewrite (to_int_small _ (Hl _ 2 (Hl _ 1 (Hl 0 0 H0)))).
  rewrite (to_int_small _ (Hl _ 3 (Hl _ 2 (Hl _ 1 (Hl 0 0 H0))))).
  reflexivity.
Qed.

(** The arithmetic shifts of the signed fold do not disturb bit 0. *)
Lemma inner_bit_spec st : inner_bit st = parity_fold st.
Proof.
  unfold inner_bit, parity_fold. rewrite fold_shifts_spec.
  apply low_bit_congr. rewrite inner_product_spec.
  symmetry. apply u32_small, spec_inner_range.
Qed.

Lemma parity_fold_01 st : parity_fold st = 0 \/ parity_fold st = 1.
Proof.
  unfold parity_fold. rewrite land_1_bit.
  destruct (Z.testbit _ 0); cbn; auto.
Qed.

Lemma land_pow2 j p :
  0 <= j -> Z.land (2 ^ j) p = if Z.testbit p j then 2 ^ j else 0.
Proof.
  intros Hj. apply Z.bits_inj'. intros n Hn.
  rewrite Z.land_spec, Z.pow2_bits_eqb by lia.
  destruct (Z.eqb_spec j n) as [-> | Hne].
  - destruct (Z.testbit p n); cbn.
    + rewrite Z.pow2_bits_true by lia. reflexivity.
    + rewrite Z.bits_0. reflexivity.
  - cbn. destruct (Z.testbit p j).
    + rewrite Z.pow2_bits_false by lia. reflexivity.
    + rewrite Z.bits_0. reflexivity.
Qed.

Lemma spec_inner_flip st i j :
  0 <= i < 4 -> 0 <= j -> (Z.to_nat i < length st)%nat ->
  Z.testbit (rd parity i) j = true ->
  spec_inner (flip_bit st i j) = Z.lxor (spec_inner st) (2 ^ j).
Proof.
  intros Hi Hj Hlen Hbit.
  assert (Hcase : i = 0 \/ i = 1 \/ i = 2 \/ i = 3) by lia.
  unfold spec_inner, flip_bit. cbn [map fold_left].
  destruct Hcase as [-> | [-> | [-> | ->]]];
    rewrite rd_wr_eq by (lia || exact Hlen);
    rewrite !rd_wr_ne by lia;
    rewrite land_lxor_distr_r, land_pow2, Hbit by lia;
    apply Z.bits_inj'; intros n Hn; rewrite !Z.lxor_spec; btauto.
Qed.

Lemma parity_fold_flip st i j :
  0 <= i < 4 -> 0 <= j < 32 -> (Z.to_nat i < length st)%nat ->
  Z.testbit (rd parity i) j = true ->
  parity_fold (flip_bit st i j) = Z.lxor (parity_fold st) 1.
Proof.
  intros Hi Hj Hlen Hbit. unfold parity_fold.
  rewrite spec_inner_flip by (lia || assumption).
  rewrite spec_fold_lxor, low_bit_lxor, low_bit_pow2 by lia.
  reflexivity.
Qed.

(** ** The correction scan *)

Lemma find_app_or {A} (f : A -> bool) l1 l2 :
  find f (l1 ++ l2)
  = match find f l1 with Some x => Some x | None => find f l2 end.
Proof.
  induction l1 as [|x l1 IH]; cbn; [reflexivity|].
  destruct (f x); [reflexivity|apply IH].
Qed.

Lemma find_map_pre {A B} (f : B -> bool) (g : A -> B) l :
  find f (map g l) = option_map g (find (fun x => f (g x)) l).
Proof.
  induction l as [|x l IH]; cbn; [reflexivity|].
  destruct (f (g x)); [reflexivity|apply IH].
Qed.

Lemma in_zrange x lo hi : In x (zrange lo hi) <-> lo <= x < hi.
Proof.
  unfold zrange. rewrite in_map_iff. split.
  - intros (k & <- & Hk). apply in_seq in Hk. lia.
  - intros H. exists (Z.to_nat (x - lo)). split; [lia|].
    apply in_seq. lia.
Qed.

Lemma scan_j_spec st i n j :
  0 <= j -> j + Z.of_nat n <= 32 ->
  scan_j n i (u32 (2 ^ j)) st
  = option_map (flip_bit st i)
      (find (fun j' => Z.testbit (rd parity i) j') (zrange j (j + Z.of_nat n))).
Proof.
  revert j. induction n as [|n IH]; intros j Hj Hn.
  - rewrite zrange_nil by lia. reflexivity.
  - rewrite zrange_cons by lia. cbn [scan_j find].
    assert (Hw : u32 (2 ^ j) = 2 ^ j).
    { apply u32_small. unfold is_u32. split; [apply Z.pow_nonneg; lia|].
      apply Z.pow_lt_mono_r; lia. }
    rewrite Hw, land_pow2 by lia.
    destruct (Z.testbit (rd parity i) j) eqn:Hbit.
    + assert (H2 : (2 ^ j =? 0) = false).
      { apply Z.eqb_neq. pose proof (Z.pow_pos_nonneg 2 j). lia. }
      rewrite H2. reflexivity.
    + cbn [Z.eqb negb].
      replace (Z.shiftl (2 ^ j) 1) with (2 ^ (j + 1)).
      2:{ rewrite Z.shiftl_mul_pow2, Z.pow_add_r by lia. reflexivity. }
      rewrite IH by lia. do 3 f_equal. lia.
Qed.

Lemma first_parity_bit_unfold :
  first_parity_bit
  = fold_right
      (fun i rest =>
         match find (fun j => Z.testbit (rd parity i) j) (zrange 0 32) with
         | Some j => Some (i, j)
         | None => rest
         end) None [0; 1; 2; 3].
Proof.
  unfold first_parity_bit, scan_order. cbn [flat_map fold_right].
  rewrite !find_app_or, !find_map_pre. cbn [fst snd find].
  repeat (destruct (find _ (zrange 0 32)); [reflexivity|cbn [option_map]]).
  reflexivity.
Qed.

Lemma scan_i_spec st :
  scan_i 4 0 st
  = option_map (fun ij => flip_bit st (fst ij) (snd ij)) first_parity_bit.
Proof.
  rewrite first_parity_bit_unfold. cbn [scan_i fold_right].
  change 1 with (u32 (2 ^ 0)) at 1 3 5 7.
  rewrite !(scan_j_spec st _ 32 0) by lia.
  change (0 + Z.of_nat 32) with 32. change (0 + 1) with 1.
  change (1 + 1) with 2. change (2 + 1) with 3.
  repeat (destruct (find _ (zrange 0 32)); [reflexivity|cbn [option_map]]).
  reflexivity.
Qed.

Lemma find_zrange_some (f : Z -> bool) lo hi j :
  find f (zrange lo hi) = Some j ->
  lo <= j < hi /\ f j = true /\ forall j', lo <= j' < j -> f j' = false.
Proof.
  remember (Z.to_nat (hi - lo)) as n eqn:Hn.
  revert lo Hn. induction n as [|n IH]; intros lo Hn Hfind.
  - rewrite zrange_nil in Hfind by lia. discriminate.
  - rewrite zrange_cons in Hfind by lia. cbn [find] in Hfind.
    destruct (f lo) eqn:Hlo.
    + injection Hfind as <-. split; [lia|]. split; [exact Hlo|].
      intros j' Hj'. lia.
    + destruct (IH (lo + 1)) as (Hr & Hf & Hlt); [lia|exact Hfind|].
      split; [lia|]. split; [exact Hf|].
      intros j' Hj'. destruct (Z.eq_dec j' lo) as [-> | Hne]; [exact Hlo|].
      apply Hlt. lia.
Qed.

Lemma find_zrange_none (f : Z -> bool) lo hi :
  find f (zrange lo hi) = None -> forall j', lo <= j' < hi -> f j' = false.
Proof.
  intros Hfind j' Hj'. apply (find_none f _ Hfind). apply in_zrange, Hj'.
Qed.

(** What [first_parity_bit] returns is a set bit of the parity words, and no
    pair earlier in the scan order is one. *)
Lemma first_parity_bit_least i j :
  first_parity_bit = Some (i, j) ->
  0 <= i < 4 /\ 0 <= j < 32 /\ Z.testbit (rd parity i) j = true
  /\ forall i' j', 0 <= i' < 4 -> 0 <= j' < 32 ->
       i' < i \/ (i' = i /\ j' < j) ->
       Z.testbit (rd parity i') j' = false.
Proof.
  rewrite first_parity_bit_unfold. cbn [fold_right]. intros H.
  destruct (find _ (zrange 0 32)) as [j0|] eqn:H0 in H.
  { injection H as <- <-. apply find_zrange_some in H0 as (Hr & Hf & Hlt).
    split; [lia|]. split; [lia|]. split; [exact Hf|].
    intros i' j' Hi' Hj' [Hlt'|[-> Hlt']]; [lia|]. apply Hlt. lia. }
  pose proof (find_zrange_none _ _ _ H0) as N0. clear H0.
  destruct (find _ (zrange 0 32)) as [j1|] eqn:H1 in H.
  { injection H as <- <-. apply find_zrange_some in H1 as (Hr & Hf & Hlt).
    split; [lia|]. split; [lia|]. split; [exact Hf|].
    intros i' j' Hi' Hj' [Hlt'|[-> Hlt']]; [|apply Hlt; lia].
    assert (i' = 0) as -> by lia. apply N0. lia. }
  pose proof (find_zrange_none _ _ _ H1) as N1. clear H1.
  destruct (find _ (zrange 0 32)) as [j2|] eqn:H2 in H.
  { injection H as <- <-. apply find_zrange_some in H2 as (Hr & Hf & Hlt).
    split; [lia|]. split; [lia|]. split; [exact Hf|].
    intros i' j' Hi' Hj' [Hlt'|[-> Hlt']]; [|apply Hlt; lia].
    assert (i' = 0 \/ i' = 1) as [-> | ->] by lia; [apply N0|apply N1]; lia. }
  pose proof (find_zrange_none _ _ _ H2) as N2. clear H2.
  destruct (find _ (zrange 0 32)) as [j3|] eqn:H3 in H; [|discriminate].
  injection H as <- <-. apply find_zrange_some in H3 as (Hr & Hf & Hlt).
  split; [lia|]. split; [lia|]. split; [exact Hf|].
  intros i' j' Hi' Hj' [Hlt'|[-> Hlt']]; [|apply Hlt; lia].
  assert (i' = 0 \/ i' = 1 \/ i' = 2) as [-> | [-> | ->]] by lia;
    [apply N0|apply N1|apply N2]; lia.
Qed.

Lemma first_parity_bit_none :
  first_parity_bit = None ->
  forall i j, 0 <= i < 4 -> 0 <= j < 32 -> Z.testbit (rd parity i) j = false.
Proof.
  unfold first_parity_bit. intros H i j Hi Hj.
  apply (find_none _ _ H (i, j)). unfold scan_order.
  apply in_flat_map. exists i. split.
  - assert (i = 0 \/ i = 1 \/ i = 2 \/ i = 3) as [-> | [-> | [-> | ->]]] by lia;
      cbn; auto.
  - apply in_map, in_zrange, Hj.
Qed.

Lemma period_certification_refines g :
  period_certification g = period_certification_spec g.
Proof.
  unfold period_certification, period_certification_spec.
  rewrite inner_bit_spec, scan_i_spec.
  destruct (parity_fold (state g) =? 1); [reflexivity|].
  destruct first_parity_bit as [[i j]|]; reflexivity.
Qed.

Lemma flip_bit_out_of_range st i j :
  (length st <= Z.to_nat i)%nat -> flip_bit st i j = st.
Proof. intros H. unfold flip_bit, wr. apply list_insert_ge, H. Qed.

(** After the call the fold is odd, as soon as one parity bit exists and the
    four words it is computed from are there. *)
Lemma period_certification_parity g :
  first_parity_bit <> None -> (4 <= length (state g))%nat ->
  parity_fold (state (period_certification g)) = 1.
Proof.
  intros Hsome Hlen. rewrite period_certification_refines.
  unfold period_certification_spec.
  destruct (Z.eqb_spec (parity_fold (state g)) 1) as [H1|H1]; [exact H1|].
  destruct first_parity_bit as [[i j]|] eqn:Hfirst; [|congruence].
  apply first_parity_bit_least in Hfirst as (Hi & Hj & Hbit & _).
  cbn [state]. rewrite parity_fold_flip by (lia || assumption).
  destruct (parity_fold_01 (state g)) as [H0 | H0]; [|contradiction].
  rewrite H0. reflexivity.
Qed.

Lemma parity_nonzero_first_bit :
  Exists (fun p => p <> 0) parity -> first_parity_bit <> None.
Proof.
  intros Hex Hnone.
  pose proof (first_parity_bit_none Hnone) as Hbits.
  assert (Hzero : forall i, 0 <= i < 4 -> rd parity i = 0).
  { intros i Hi. pose proof (parity_in_range i) as Hr.
    rewrite <- (u32_small _ Hr). apply Z.bits_inj'. intros n Hn.
    rewrite Z.bits_0. unfold u32.
    destruct (Z.lt_ge_cases n 32) as [Hlt|Hge].
    - rewrite Z.mod_pow2_bits_low by lia. apply Hbits; lia.
    - apply Z.mod_pow2_bits_high. lia. }
  unfold parity in Hex.
  assert (Z0 : u32 SFMT_PARITY1 = 0) by exact (Hzero 0 ltac:(lia)).
  assert (Z1 : u32 SFMT_PARITY2 = 0) by exact (Hzero 1 ltac:(lia)).
  assert (Z2 : u32 SFMT_PARITY3 = 0) by exact (Hzero 2 ltac:(lia)).
  assert (Z3 : u32 SFMT_PARITY4 = 0) by exact (Hzero 3 ltac:(lia)).
  repeat match goal with
         | H : Exists _ (_ :: _) |- _ => inversion H; clear H; subst
         | H : Exists _ [] |- _ => inversion H
         end; congruence.
Qed.

Lemma pc_spec_odd g :
  parity_fold (state g) = 1 -> period_certification_spec g = g.
Proof. intros H. unfold period_certification_spec. rewrite H. reflexivity. Qed.

Lemma pc_spec_even g i j :
  parity_fold (state g) <> 1 -> first_parity_bit = Some (i, j) ->
  period_certification_spec g = mk_sfmt (flip_bit (state g) i j) (idx g).
Proof.
  intros H Hfirst. unfold period_certification_spec. rewrite Hfirst.
  apply Z.eqb_neq in H. rewrite H. reflexivity.
Qed.

Lemma pc_spec_none g :
  first_parity_bit = None -> period_certification_spec g = g.
Proof.
  intros Hfirst. unfold period_certification_spec. rewrite Hfirst.
  destruct (parity_fold (state g) =? 1); reflexivity.
Qed.

(** ** Claims about [period_certification] *)

(** C4. [period_certification] follows the algorithm of section 4.4: it
    computes the one-bit fold of the XOR of the four masked words; when that
    bit is 1 the instance is returned unchanged; when it is 0 the first set
    bit of the parity words, in index order and from the least significant
    bit, is flipped in the word of the same index and nothing else is
    touched.  In every case the result is the argument or differs from it by
    one flipped bit of one of the first four words. *)
Theorem period_certification_algorithm (g : sfmt_t) :
  period_certification g = period_certification_spec g
  /\ inner_bit (state g) = parity_fold (state g)
  /\ (parity_fold (state g) = 1 -> period_certification g = g)
  /\ (parity_fold (state g) = 0 ->
      forall i j, first_parity_bit = Some (i, j) ->
        period_certification g = mk_sfmt (flip_bit (state g) i j) (idx g)
        /\ Z.testbit (rd parity i) j = true
        /\ forall i' j', 0 <= i' < 4 -> 0 <= j' < 32 ->
             i' < i \/ (i' = i /\ j' < j) ->
             Z.testbit (rd parity i') j' = false)
  /\ (parity_fold (state g) = 0 -> first_parity_bit = None ->
      period_certification g = g)
  /\ (period_certification g = g
      \/ exists i j, 0 <= i < 4 /\ 0 <= j < 32
           /\ period_certification g
              = mk_sfmt (flip_bit (state g) i j) (idx g)).
Proof.
  pose proof (period_certification_refines g) as Href.
  split; [exact Href|]. split; [apply inner_bit_spec|].
  rewrite Href. unfold period_certification_spec.
  split; [intros ->; reflexivity|].
  split.
  { intros -> i j Hfirst. rewrite Hfirst. cbn [Z.eqb].
    apply first_parity_bit_least in Hfirst as (_ & _ & Hbit & Hleast).
    auto. }
  split; [intros -> ->; reflexivity|].
  destruct (parity_fold (state g) =? 1); [left; reflexivity|].
  destruct first_parity_bit as [[i j]|] eqn:Hfirst; [|left; reflexivity].
  apply first_parity_bit_least in Hfirst as (Hi & Hj & _).
  right. exists i, j. auto.
Qed.

(** C10. Applying [period_certification] twice in a row gives the same
    instance as applying it once. *)
Theorem period_certification_idempotent (g : sfmt_t) :
  period_certification (period_certification g) = period_certification g.
Proof.
  rewrite !period_certification_refines.
  destruct (Z.eq_dec (parity_fold (state g)) 1) as [H1|H1].
  { rewrite (pc_spec_odd g H1). apply pc_spec_odd, H1. }
  destruct first_parity_bit as [[i j]|] eqn:Hfirst.
  2:{ rewrite (pc_spec_none g Hfirst). apply pc_spec_none, Hfirst. }
  rewrite (pc_spec_even g i j H1 Hfirst).
  pose proof (first_parity_bit_least i j Hfirst) as (Hi & Hj & Hbit & _).
  destruct (Nat.lt_ge_cases (Z.to_nat i) (length (state g))) as [Hin|Hout].
  - apply pc_spec_odd. cbn [state].
    rewrite parity_fold_flip by (lia || assumption).
    destruct (parity_fold_01 (state g)) as [H0 | H0]; [|contradiction].
    rewrite H0. reflexivity.
  - rewrite flip_bit_out_of_range by exact Hout.
    rewrite (pc_spec_even _ i j) by assumption. cbn [state idx].
    rewrite flip_bit_out_of_range by exact Hout. reflexivity.
Qed.

(** ** Seeding by a 32-bit integer *)

Lemma period_certification_idx g : idx (period_certification g) = idx g.
Proof.
  unfold period_certification.
  destruct (inner_bit (state g) =? 1); [reflexivity|].
  destruct (scan_i 4 0 (state g)); reflexivity.
Qed.

Lemma period_certification_length g :
  length (state (period_certification g)) = length (state g).
Proof.
  unfold period_certification.
  destruct (inner_bit (state g) =? 1); [reflexivity|].
  rewrite scan_i_spec.
  destruct first_parity_bit as [[i j]|]; [|reflexivity].
  cbn [option_map state fst snd]. apply length_wr.
Qed.

(** After [n] rounds of the seeding loop the words [0..n] hold the recurrence
    of section 4.2 and the array has kept its length. *)
Lemma seed_loop_prefix seed st (n : nat) :
  (n < length st)%nat -> st !! 0%nat = Some seed ->
  length (for_range 1 (1 + Z.of_nat n) seed_body st) = length st
  /\ forall k, (k <= n)%nat ->
       for_range 1 (1 + Z.of_nat n) seed_body st !! k
       = Some (seed_word seed k).
Proof.
  intros Hn H0. induction n as [|n IH].
  - unfold for_range. rewrite zrange_nil by lia. cbn [fold_left].
    split; [reflexivity|]. intros k Hk. assert (k = 0%nat) as -> by lia.
    exact H0.
  - destruct IH as [IHlen IHpre]; [lia|].
    unfold for_range in *.
    replace (1 + Z.of_nat (S n)) with (1 + Z.of_nat n + 1) by lia.
    rewrite zrange_snoc by lia. rewrite fold_left_app. cbn [fold_left].
    set (r := fold_left (fun acc i => seed_body i acc)
                (zrange 1 (1 + Z.of_nat n)) st) in *.
    split; [unfold seed_body; rewrite length_wr; exact IHlen|].
    intros k Hk. unfold seed_body, wr.
    replace (Z.to_nat (1 + Z.of_nat n)) with (S n) by lia.
    destruct (Nat.eq_dec k (S n)) as [-> | Hne].
    + rewrite list_lookup_insert_eq by lia.
      replace (1 + Z.of_nat n - 1) with (Z.of_nat n) by lia.
      rewrite (rd_lookup r (Z.of_nat n) (seed_word seed n))
        by (rewrite Nat2Z.id; apply IHpre; lia).
      cbn [seed_word]. do 3 f_equal. lia.
    + rewrite list_lookup_insert_ne by lia. apply IHpre. lia.
Qed.

Lemma seed_words_lookup seed (k : nat) :
  (k < Z.to_nat SFMT_N32)%nat -> seed_words seed !! k = Some (seed_word seed k).
Proof.
  intros Hk. unfold seed_words.
  change (map (seed_word seed)) with (fmap (M:=list) (seed_word seed)).
  rewrite list_lookup_fmap, lookup_seq_lt by exact Hk. reflexivity.
Qed.

Lemma seed_words_length seed : length (seed_words seed) = Z.to_nat SFMT_N32.
Proof. unfold seed_words. rewrite length_map, length_seq. reflexivity. Qed.

(** The array that [sfmt_init_gen_rand] hands to [period_certification]
    does not depend on what the instance held before. *)
Lemma sfmt_init_gen_rand_words seed g :
  0 < SFMT_N -> length (state g) = Z.to_nat SFMT_N32 ->
  sfmt_init_gen_rand seed g
  = period_certification (mk_sfmt (seed_words seed) SFMT_N32).
Proof.
  intros HN Hlen. unfold sfmt_init_gen_rand. do 2 f_equal.
  assert (HN32 : 0 < SFMT_N32) by (unfold SFMT_N32; lia).
  replace SFMT_N32 with (1 + Z.of_nat (Z.to_nat SFMT_N32 - 1)) at 1 by lia.
  destruct (seed_loop_prefix seed (wr (state g) 0 seed) (Z.to_nat SFMT_N32 - 1))
    as [Hl Hp].
  { rewrite length_wr. lia. }
  { unfold wr. apply list_lookup_insert_eq. lia. }
  rewrite length_wr in Hl.
  apply list_eq. intros k.
  destruct (Nat.lt_ge_cases k (Z.to_nat SFMT_N32)) as [Hk|Hk].
  - rewrite Hp by lia. symmetry. apply seed_words_lookup, Hk.
  - rewrite !lookup_ge_None_2; [reflexivity| |]; [rewrite seed_words_length|]; lia.
Qed.

(** C3. [sfmt_init_gen_rand] fills the state with [word[0] = seed] and
    [word[i] = 1812433253 * (word[i-1] XOR (word[i-1] >> 30)) + i] in
    wrapping 32-bit arithmetic for [i = 1 .. N32-1], sets the index to
    [N32], and then applies period certification. *)
Theorem sfmt_init_gen_rand_scalar_seeding (seed : Z) (g : sfmt_t) :
  0 < SFMT_N -> length (state g) = Z.to_nat SFMT_N32 ->
  exists word : list Z,
    length word = Z.to_nat SFMT_N32
    /\ rd word 0 = seed
    /\ (forall i, 1 <= i < SFMT_N32 ->
          rd word i
          = u32 (1812433253
                 * Z.lxor (rd word (i - 1)) (Z.shiftr (rd word (i - 1)) 30)
                 + i))
    /\ sfmt_init_gen_rand seed g
       = period_certification (mk_sfmt word SFMT_N32)
    /\ idx (sfmt_init_gen_rand seed g) = SFMT_N32.
Proof.
  intros HN Hlen. exists (seed_words seed).
  assert (HN32 : 0 < SFMT_N32) by (unfold SFMT_N32; lia).
  pose proof (sfmt_init_gen_rand_words seed g HN Hlen) as Heq.
  assert (Hrd : forall i, 0 <= i < SFMT_N32 ->
                 rd (seed_words seed) i = seed_word seed (Z.to_nat i)).
  { intros i Hi. apply rd_lookup, seed_words_lookup. lia. }
  split; [apply seed_words_length|].
  split; [apply Hrd; lia|].
  split.
  { intros i Hi. rewrite !Hrd by lia.
    replace (Z.to_nat i) with (S (Z.to_nat (i - 1))) by lia.
    cbn [seed_word]. do 2 f_equal. lia. }
  split; [exact Heq|].
  rewrite Heq, period_certification_idx. reflexivity.
Qed.

(** ** Seeding by a key array: the loops *)

Lemma fold_left_inv_ext {S A : Type} (I : S -> Prop) (f g : S -> A -> S) l s :
  I s ->
  (forall s x, In x l -> I s -> f s x = g s x /\ I (f s x)) ->
  fold_left f l s = fold_left g l s /\ I (fold_left f l s).
Proof.
  revert s. induction l as [|x l IH]; intros s Hs Hstep; cbn [fold_left].
  - split; [reflexivity|exact Hs].
  - destruct (Hstep s x (or_introl eq_refl) Hs) as [Heq HI].
    rewrite <- Heq. apply IH; [exact HI|].
    intros s' y Hy. apply Hstep. right. exact Hy.
Qed.

Lemma fold_left_m_j {A : Type} (f : mix_st -> A -> mix_st) l s :
  (forall s x, m_j (f s x) = m_j s + 1) ->
  m_j (fold_left f l s) = m_j s + Z.of_nat (length l).
Proof.
  intros Hf. revert s. induction l as [|x l IH]; intros s; cbn [fold_left length].
  - lia.
  - rewrite IH, Hf. lia.
Qed.

Lemma length_zrange lo hi : length (zrange lo hi) = Z.to_nat (hi - lo).
Proof. unfold zrange. rewrite length_map, length_seq. reflexivity. Qed.

Lemma zrange_app lo mid hi :
  lo <= mid <= hi -> zrange lo hi = zrange lo mid ++ zrange mid hi.
Proof.
  remember (Z.to_nat (mid - lo)) as n eqn:Hn.
  revert lo Hn. induction n as [|n IH]; intros lo Hn H.
  - assert (lo = mid) as -> by lia. rewrite (zrange_nil mid mid) by lia.
    reflexivity.
  - rewrite (zrange_cons lo hi), (zrange_cons lo mid) by lia.
    cbn [app]. f_equal. apply IH; lia.
Qed.

(** The first loop runs over [j = m_j .. min(count, key_length) - 1] and
    never reads past the end of a key that has [key_length] elements. *)
Lemma key_loop_run fuel init_key key_length count mid lag s :
  (Z.to_nat (Z.min count key_length - m_j s) < fuel)%nat ->
  0 <= m_j s -> key_length <= Z.of_nat (length init_key) ->
  key_loop fuel init_key key_length count mid lag s
  = Ok (fold_left (fun s k => key_step mid lag (rd init_key k) s)
          (zrange (m_j s) (Z.min count key_length)) s).
Proof.
  revert s. induction fuel as [|fuel IH]; intros s Hfuel Hj Hlen; [lia|].
  cbn [key_loop].
  destruct (Z.ltb_spec (m_j s) count) as [Hc|Hc];
    destruct (Z.ltb_spec (m_j s) key_length) as [Hk|Hk]; cbn [andb];
    try (rewrite zrange_nil by lia; reflexivity).
  destruct (init_key !! Z.to_nat (m_j s)) as [k|] eqn:Hlook.
  2:{ apply lookup_ge_None in Hlook. lia. }
  rewrite zrange_cons by lia. cbn [fold_left].
  rewrite (rd_lookup _ _ _ Hlook).
  rewrite IH; cbn [key_step m_j]; try lia. reflexivity.
Qed.

Lemma idx_loop_run fuel count mid lag s :
  (Z.to_nat (count - m_j s) < fuel)%nat ->
  idx_loop fuel count mid lag s
  = Ok (fold_left (fun s (_ : Z) => idx_step mid lag s)
          (zrange (m_j s) count) s).
Proof.
  revert s. induction fuel as [|fuel IH]; intros s Hfuel; [lia|].
  cbn [idx_loop].
  destruct (Z.ltb_spec (m_j s) count) as [Hc|Hc].
  - rewrite zrange_cons by lia. cbn [fold_left].
    rewrite IH; cbn [idx_step m_j]; try lia. reflexivity.
  - rewrite zrange_nil by lia. reflexivity.
Qed.

Lemma lag_of_bounds size : 4 <= size -> 3 <= lag_of size <= 11 /\ lag_of size < size.
Proof.
  intros H. unfold lag_of.
  destruct (Z.leb_spec 623 size); [lia|].
  destruct (Z.leb_spec 68 size); [lia|].
  destruct (Z.leb_spec 39 size); lia.
Qed.

Lemma mid_nonneg size :
  4 <= size ->
  Z.quot (size - lag_of size) 2 = (size - lag_of size) / 2
  /\ 0 <= Z.quot (size - lag_of size) 2
  /\ Z.quot (size - lag_of size) 2 + lag_of size < size.
Proof.
  intros H. pose proof (lag_of_bounds size H) as [Hl Hs].
  rewrite Z.quot_div_nonneg by lia.
  split; [reflexivity|]. split; [apply Z.div_pos; lia|].
  pose proof (Z.mul_div_le (size - lag_of size) 2). lia.
Qed.

Lemma count_of_max key_length : count_of key_length = Z.max (key_length + 1) SFMT_N32.
Proof. unfold count_of. destruct (Z.ltb_spec SFMT_N32 (key_length + 1)); lia. Qed.

Lemma key_step_diffuse1 mid lag k s :
  0 <= mid -> 0 <= lag -> mix_inv s ->
  key_step mid lag k s = diffuse1 mid lag (u32 (k + m_i s)) s.
Proof.
  intros Hm Hl [Hi _]. unfold key_step, diffuse1.
  rewrite !Z.rem_mod_nonneg by lia. reflexivity.
Qed.

Lemma idx_step_diffuse1 mid lag s :
  0 <= mid -> 0 <= lag -> mix_inv s ->
  idx_step mid lag s = diffuse1 mid lag (m_i s) s.
Proof.
  intros Hm Hl [Hi _]. unfold idx_step, diffuse1.
  rewrite !Z.rem_mod_nonneg by lia. reflexivity.
Qed.

Lemma diffuse1_inv mid lag inj s : mix_inv s -> mix_inv (diffuse1 mid lag inj s).
Proof.
  intros [Hi Hlen]. unfold mix_inv, diffuse1. cbn [m_i m_psfmt32].
  split; [apply Z.mod_pos_bound; lia|].
  rewrite !length_wr. exact Hlen.
Qed.

Lemma initial_mix_inv key_length mid lag :
  0 < SFMT_N -> mix_inv (initial_mix key_length mid lag).
Proof.
  intros HN. unfold mix_inv, initial_mix. cbn [m_i m_psfmt32].
  split; [unfold SFMT_N32; lia|].
  rewrite !length_wr. apply length_replicate.
Qed.

Lemma schedule_fold_inv init_key mid lag l s :
  mix_inv s -> mix_inv (fold_left (schedule_step init_key mid lag) l s).
Proof.
  revert s. induction l as [|k l IH]; intros s Hs; cbn [fold_left].
  - exact Hs.
  - apply IH, diffuse1_inv, Hs.
Qed.

(** The two loops together are one pass of [schedule_step] over
    [k = 0 .. count - 2], where [count] is the value computed before the
    initial mixing. *)
Lemma phase1_schedule init_key :
  0 < SFMT_N ->
  let L := Z.of_nat (length init_key) in
  let lag := lag_of (SFMT_N * 4) in
  let mid := Z.quot (SFMT_N * 4 - lag) 2 in
  init_by_array_phase1 init_key L
  = Ok (fold_left (schedule_step init_key mid lag)
          (zrange 0 (count_of L - 1)) (initial_mix L mid lag)).
Proof.
  intros HN L lag mid. unfold init_by_array_phase1. fold lag mid L.
  pose proof (mid_nonneg (SFMT_N * 4) ltac:(lia)) as (_ & Hmid & _).
  pose proof (lag_of_bounds (SFMT_N * 4) ltac:(lia)) as [Hlag _].
  fold lag in Hmid, Hlag. fold mid in Hmid.
  pose proof (count_of_max L) as Hcount.
  assert (HL : 0 <= L) by (unfold L; lia).
  set (s0 := initial_mix L mid lag).
  assert (Hs0 : mix_inv s0) by (apply initial_mix_inv, HN).
  assert (Hj0 : m_j s0 = 0) by reflexivity.
  rewrite key_loop_run by (rewrite ?Hj0; unfold L; lia).
  rewrite Hj0. replace (Z.min (count_of L - 1) L) with L by lia.
  destruct (fold_left_inv_ext mix_inv
              (fun s k => key_step mid lag (rd init_key k) s)
              (schedule_step init_key mid lag) (zrange 0 L) s0 Hs0)
    as [Hkey Hinv1].
  { intros s k Hk Hs. apply in_zrange in Hk.
    unfold schedule_step, inject.
    destruct (init_key !! Z.to_nat k) as [key|] eqn:Hlook.
    2:{ apply lookup_ge_None in Hlook. unfold L in Hk. lia. }
    rewrite (rd_lookup _ _ _ Hlook).
    rewrite key_step_diffuse1 by (lia || exact Hs).
    split; [reflexivity|]. apply diffuse1_inv, Hs. }
  set (s1 := fold_left (fun s k => key_step mid lag (rd init_key k) s)
               (zrange 0 L) s0) in *.
  assert (Hj1 : m_j s1 = L).
  { unfold s1. rewrite fold_left_m_j by reflexivity.
    rewrite length_zrange, Hj0. lia. }
  rewrite idx_loop_run by (rewrite Hj1; lia).
  rewrite Hj1. f_equal.
  destruct (fold_left_inv_ext mix_inv
              (fun s (_ : Z) => idx_step mid lag s)
              (schedule_step init_key mid lag)
              (zrange L (count_of L - 1)) s1 Hinv1)
    as [Hidx _].
  { intros s k Hk Hs. apply in_zrange in Hk.
    unfold schedule_step, inject.
    destruct (init_key !! Z.to_nat k) as [key|] eqn:Hlook.
    { apply lookup_lt_Some in Hlook. unfold L in Hk. lia. }
    rewrite idx_step_diffuse1 by (lia || exact Hs).
    split; [reflexivity|]. apply diffuse1_inv, Hs. }
  rewrite Hidx, Hkey.
  rewrite (zrange_app 0 L (count_of L - 1)) by lia.
  rewrite fold_left_app. reflexivity.
Qed.

Lemma fold_left_inv {S A : Type} (I : S -> Prop) (f : S -> A -> S) l s :
  I s -> (forall s x, I s -> I (f s x)) -> I (fold_left f l s).
Proof.
  intros Hs Hf. revert s Hs.
  induction l as [|x l IH]; intros s Hs; cbn [fold_left]; auto.
Qed.

Lemma u32_add_idemp_l a b : u32 (u32 a + b) = u32 (a + b).
Proof. unfold u32. apply Zplus_mod_idemp_l. Qed.

Lemma fin_step_diffuse2 mid lag s :
  0 <= mid -> 0 <= lag -> mix_inv s ->
  fin_step mid lag s = diffuse2 mid lag s.
Proof.
  intros Hm Hl [Hi _]. unfold fin_step, diffuse2.
  rewrite !Z.rem_mod_nonneg by lia. rewrite u32_add_idemp_l. reflexivity.
Qed.

Lemma diffuse2_inv mid lag s : mix_inv s -> mix_inv (diffuse2 mid lag s).
Proof.
  intros [Hi Hlen]. unfold mix_inv, diffuse2. cbn [m_i m_psfmt32].
  split; [apply Z.mod_pos_bound; lia|].
  rewrite !length_wr. exact Hlen.
Qed.

(** Every word stays a 32-bit value through the mixing steps. *)
Lemma is_u32_rd p i : Forall is_u32 p -> is_u32 (rd p i).
Proof.
  intros Hp. unfold rd. destruct (p !! Z.to_nat i) as [v|] eqn:Hlook.
  - exact (proj1 (Forall_lookup _ _) Hp _ _ Hlook).
  - cbn. unfold is_u32. lia.
Qed.

Lemma Forall_wr p i v : Forall is_u32 p -> is_u32 v -> Forall is_u32 (wr p i v).
Proof. intros Hp Hv. unfold wr. apply Forall_insert; assumption. Qed.

Lemma diffuse1_words mid lag inj s :
  Forall is_u32 (m_psfmt32 s) -> Forall is_u32 (m_psfmt32 (diffuse1 mid lag inj s)).
Proof.
  intros Hp. unfold diffuse1. cbn [m_psfmt32].
  repeat apply Forall_wr; try exact Hp; apply u32_range.
Qed.

Lemma diffuse2_words mid lag s :
  Forall is_u32 (m_psfmt32 s) -> Forall is_u32 (m_psfmt32 (diffuse2 mid lag s)).
Proof.
  intros Hp. unfold diffuse2. cbn [m_psfmt32].
  apply Forall_wr; [|apply u32_range].
  assert (Hf2 : forall x, is_u32 (func2 x)) by (intros x; apply u32_range).
  apply Forall_wr.
  - apply Forall_wr; [exact Hp|]. apply is_u32_lxor; [|apply Hf2].
    apply is_u32_rd, Hp.
  - apply is_u32_lxor; [|apply u32_range]. apply is_u32_rd.
    apply Forall_wr; [exact Hp|]. apply is_u32_lxor; [|apply Hf2].
    apply is_u32_rd, Hp.
Qed.

Lemma initial_mix_words key_length mid lag :
  Forall is_u32 (m_psfmt32 (initial_mix key_length mid lag)).
Proof.
  unfold initial_mix. cbn [m_psfmt32].
  repeat apply Forall_wr; try apply u32_range.
  apply Forall_replicate. unfold is_u32. lia.
Qed.

Lemma period_certification_words g :
  Forall is_u32 (state g) -> Forall is_u32 (state (period_certification g)).
Proof.
  intros Hp. rewrite period_certification_refines.
  unfold period_certification_spec.
  destruct (parity_fold (state g) =? 1); [exact Hp|].
  destruct first_parity_bit as [[i j]|] eqn:Hfirst; [|exact Hp].
  apply first_parity_bit_least in Hfirst as (_ & Hj & _).
  cbn [state]. unfold flip_bit. apply Forall_wr; [exact Hp|].
  apply is_u32_lxor; [apply is_u32_rd, Hp|].
  unfold is_u32. split; [apply Z.pow_nonneg; lia|].
  apply Z.pow_lt_mono_r; lia.
Qed.

(** The whole of [sfmt_init_by_array] as two passes over the schedule
    followed by period certification.  The call always returns when
    [key_length] is the length of the key. *)
Lemma sfmt_init_by_array_run init_key g :
  0 < SFMT_N ->
  let L := Z.of_nat (length init_key) in
  let lag := lag_of (SFMT_N * 4) in
  let mid := Z.quot (SFMT_N * 4 - lag) 2 in
  let s1 := fold_left (schedule_step init_key mid lag)
              (zrange 0 (count_of L - 1)) (initial_mix L mid lag) in
  let s2 := fold_left (fun s (_ : Z) => diffuse2 mid lag s)
              (zrange 0 SFMT_N32) (reset_j s1) in
  sfmt_init_by_array init_key L g
  = Ok (period_certification (mk_sfmt (m_psfmt32 s2) SFMT_N32))
  /\ mix_inv s2 /\ Forall is_u32 (m_psfmt32 s2).
Proof.
  intros HN L lag mid s1 s2. unfold sfmt_init_by_array.
  pose proof (phase1_schedule init_key HN) as Hph. cbv zeta in Hph.
  fold L lag mid in Hph. fold s1 in Hph. fold lag mid. rewrite Hph.
  pose proof (mid_nonneg (SFMT_N * 4) ltac:(lia)) as (_ & Hmid & _).
  pose proof (lag_of_bounds (SFMT_N * 4) ltac:(lia)) as [Hlag _].
  fold lag in Hmid, Hlag. fold mid in Hmid.
  assert (Hs1 : mix_inv s1 /\ Forall is_u32 (m_psfmt32 s1)).
  { unfold s1.
    apply (fold_left_inv (fun s => mix_inv s /\ Forall is_u32 (m_psfmt32 s))).
    - split; [apply initial_mix_inv, HN|apply initial_mix_words].
    - intros s k [Hi Hw].
      split; [apply diffuse1_inv, Hi|apply diffuse1_words, Hw]. }
  assert (Hr : mix_inv (reset_j s1) /\ Forall is_u32 (m_psfmt32 (reset_j s1)))
    by exact Hs1.
  destruct (fold_left_inv_ext
              (fun s => mix_inv s /\ Forall is_u32 (m_psfmt32 s))
              (fun s (_ : Z) => fin_step mid lag s)
              (fun s (_ : Z) => diffuse2 mid lag s)
              (zrange 0 SFMT_N32) (reset_j s1) Hr) as [Heq Hinv].
  { intros s k _ [Hi Hw]. rewrite fin_step_diffuse2 by (lia || exact Hi).
    split; [reflexivity|].
    split; [apply diffuse2_inv, Hi|apply diffuse2_words, Hw]. }
  unfold for_range. fold (reset_j s1). rewrite Heq. fold s2.
  rewrite Heq in Hinv. split; [reflexivity|exact Hinv].
Qed.

Lemma schedule_index init_key mid lag s0 (n : nat) :
  mix_inv s0 ->
  m_i (fold_left (schedule_step init_key mid lag) (zrange 0 (Z.of_nat n)) s0)
  = (m_i s0 + Z.of_nat n) mod SFMT_N32.
Proof.
  intros [Hi Hlen]. induction n as [|n IH].
  - cbn [Z.of_nat]. rewrite zrange_nil by lia. cbn [fold_left].
    rewrite Z.add_0_r, Z.mod_small by lia. reflexivity.
  - rewrite Nat2Z.inj_succ, <- Z.add_1_r, zrange_snoc by lia.
    rewrite fold_left_app. cbn [fold_left].
    unfold schedule_step at 1. unfold diffuse1. cbn [m_i].
    rewrite IH, Zplus_mod_idemp_l. f_equal. lia.
Qed.

(** Array seeding returns, and what it returns is a certified, well-formed
    instance with index [N32]. *)
Lemma sfmt_init_by_array_certified init_key g :
  0 < SFMT_N -> first_parity_bit <> None ->
  exists g',
    sfmt_init_by_array init_key (Z.of_nat (length init_key)) g = Ok g'
    /\ parity_fold (state g') = 1
    /\ idx g' = SFMT_N32
    /\ wf_state (state g').
Proof.
  intros HN Hfirst.
  assert (H4 : (4 <= Z.to_nat SFMT_N32)%nat) by (unfold SFMT_N32; lia).
  destruct (sfmt_init_by_array_run init_key g HN) as (Hrun & [_ Hlen] & Hwords).
  eexists. split; [exact Hrun|].
  split.
  { apply period_certification_parity; [exact Hfirst|].
    cbn [state]. rewrite Hlen. exact H4. }
  split; [rewrite period_certification_idx; reflexivity|].
  split.
  - rewrite period_certification_length. exact Hlen.
  - apply period_certification_words. exact Hwords.
Qed.

(** ** Claims about seeding *)

(** C2. After either seeding operation the parity fold of section 4.4,
    recomputed on the resulting state, is 1.  The parity words come from the
    parameter header; the statement needs that they are not all zero. *)
Theorem seeding_period_invariant :
  0 < SFMT_N -> Exists (fun p => p <> 0) parity ->
  (forall seed g,
      length (state g) = Z.to_nat SFMT_N32 ->
      parity_fold (state (sfmt_init_gen_rand seed g)) = 1
      /\ inner_bit (state (sfmt_init_gen_rand seed g)) = 1)
  /\ (forall init_key g,
        exists g',
          sfmt_init_by_array init_key (Z.of_nat (length init_key)) g = Ok g'
          /\ parity_fold (state g') = 1
          /\ inner_bit (state g') = 1).
Proof.
  intros HN Hpar. pose proof (parity_nonzero_first_bit Hpar) as Hfirst.
  assert (H4 : (4 <= Z.to_nat SFMT_N32)%nat) by (unfold SFMT_N32; lia).
  split.
  - intros seed g Hlen. rewrite inner_bit_spec.
    assert (parity_fold (state (sfmt_init_gen_rand seed g)) = 1); [|auto].
    rewrite (sfmt_init_gen_rand_words seed g HN Hlen).
    apply period_certification_parity; [exact Hfirst|].
    cbn [state]. rewrite seed_words_length. exact H4.
  - intros init_key g.
    destruct (sfmt_init_by_array_certified init_key g HN Hfirst)
      as (g' & Hrun & Hfold & _).
    exists g'. rewrite inner_bit_spec. auto.
Qed.

(** C5 (as the code has it). [sfmt_init_by_array] picks the lag 11, 7, 5 or
    3 by the thresholds 623, 68 and 39 on the state size in 32-bit words and
    [mid = (size - lag) / 2].  With [count = max(L+1, N32)], the initial
    mixing step is followed by exactly [count - 1] diffusion steps: step [k]
    works at index [(1 + k) mod N32] and injects [init_key[k] + i] while
    [k < L] and the running index [i] alone afterwards. *)
Theorem init_by_array_schedule (init_key : list Z) :
  0 < SFMT_N ->
  let L := Z.of_nat (length init_key) in
  let size := SFMT_N * 4 in
  let lag := lag_of size in
  let mid := Z.quot (size - lag) 2 in
  let count := Z.max (L + 1) SFMT_N32 in
  let run := fun k => fold_left (schedule_step init_key mid lag) (zrange 0 k)
                        (initial_mix L mid lag) in
  (623 <= size -> lag = 11)
  /\ (68 <= size < 623 -> lag = 7)
  /\ (39 <= size < 68 -> lag = 5)
  /\ (size < 39 -> lag = 3)
  /\ mid = (size - lag) / 2
  /\ init_by_array_phase1 init_key L = Ok (run (count - 1))
  /\ m_j (run (count - 1)) = count - 1
  /\ (forall k, 0 <= k <= count - 1 -> m_i (run k) = (1 + k) mod SFMT_N32)
  /\ (forall k s, 0 <= k < L ->
        schedule_step init_key mid lag s k
        = diffuse1 mid lag (u32 (rd init_key k + m_i s)) s)
  /\ (forall k s, L <= k ->
        schedule_step init_key mid lag s k = diffuse1 mid lag (m_i s) s).
Proof.
  intros HN L size lag mid count run.
  assert (Hsize : 4 <= size) by (unfold size; lia).
  pose proof (mid_nonneg size Hsize) as (Hquot & _).
  assert (Hcount : count_of L = count) by apply count_of_max.
  assert (HL : 0 <= L) by (unfold L; lia).
  split; [unfold lag, lag_of; destruct (Z.leb_spec 623 size); lia|].
  split; [unfold lag, lag_of; destruct (Z.leb_spec 623 size);
          destruct (Z.leb_spec 68 size); lia|].
  split; [unfold lag, lag_of; destruct (Z.leb_spec 623 size);
          destruct (Z.leb_spec 68 size); destruct (Z.leb_spec 39 size); lia|].
  split; [unfold lag, lag_of; destruct (Z.leb_spec 623 size);
          destruct (Z.leb_spec 68 size); destruct (Z.leb_spec 39 size); lia|].
  split; [exact Hquot|].
  split.
  { pose proof (phase1_schedule init_key HN) as Hph. cbv zeta in Hph.
    fold L in Hph. rewrite Hcount in Hph. exact Hph. }
  split.
  { unfold run. rewrite fold_left_m_j by reflexivity.
    rewrite length_zrange. cbn [initial_mix m_j]. lia. }
  split.
  { intros k Hk. unfold run.
    replace k with (Z.of_nat (Z.to_nat k)) at 1 by lia.
    rewrite schedule_index by (apply initial_mix_inv, HN).
    cbn [initial_mix m_i]. f_equal. lia. }
  split.
  - intros k s Hk. unfold schedule_step, inject.
    destruct (init_key !! Z.to_nat k) as [key|] eqn:Hlook.
    + rewrite (rd_lookup _ _ _ Hlook). reflexivity.
    + apply lookup_ge_None in Hlook. unfold L in Hk. lia.
  - intros k s Hk. unfold schedule_step, inject.
    destruct (init_key !! Z.to_nat k) as [key|] eqn:Hlook; [|reflexivity].
    apply lookup_lt_Some in Hlook. unfold L in Hk. lia.
Qed.

Lemma key_loop_no_key fuel init_key count mid lag s :
  0 <= m_j s ->
  key_loop (S fuel) init_key 0 count mid lag s = Ok s.
Proof.
  intros Hj. cbn [key_loop].
  destruct (Z.ltb_spec (m_j s) 0) as [H|H]; [lia|].
  rewrite andb_false_r. reflexivity.
Qed.

(** C9. With [key_length = 0] the first loop is left at once, whatever lies
    behind [init_key]: an empty key array is never read.  The call returns
    an instance of [N32] 32-bit words with parity fold 1 and index [N32]. *)
Theorem init_by_array_empty_key (g : sfmt_t) :
  0 < SFMT_N -> Exists (fun p => p <> 0) parity ->
  (forall fuel count mid lag s,
      0 <= m_j s -> key_loop (S fuel) [] 0 count mid lag s = Ok s)
  /\ (forall behind : list Z,
        sfmt_init_by_array behind 0 g = sfmt_init_by_array [] 0 g)
  /\ exists g',
      sfmt_init_by_array [] 0 g = Ok g'
      /\ parity_fold (state g') = 1
      /\ idx g' = SFMT_N32
      /\ wf_state (state g').
Proof.
  intros HN Hpar.
  split; [intros fuel count mid lag s Hj; apply key_loop_no_key, Hj|].
  split.
  { intros behind. unfold sfmt_init_by_array, init_by_array_phase1.
    rewrite !key_loop_no_key by (cbn [initial_mix m_j]; lia). reflexivity. }
  exact (sfmt_init_by_array_certified [] g HN
           (parity_nonzero_first_bit Hpar)).
Qed.

(** C6 (as the code has it). After the first phase [sfmt_init_by_array]
    runs one more pass of exactly [N32] steps at the same rotating index and
    offsets.  A step applies [F2] to the wrapping sum of the three words,
    XORs the result [r] into word [(i + mid) mod N32], XORs [r - i] into word
    [(i + mid + lag) mod N32], and stores [r - i] in word [i], replacing what
    was there; no other word changes. *)
Theorem init_by_array_second_phase (init_key : list Z) (g : sfmt_t) :
  0 < SFMT_N ->
  let L := Z.of_nat (length init_key) in
  let lag := lag_of (SFMT_N * 4) in
  let mid := Z.quot (SFMT_N * 4 - lag) 2 in
  exists s1,
    init_by_array_phase1 init_key L = Ok s1
    /\ mix_inv s1
    /\ (let s2 := for_range 0 SFMT_N32 (fun _ s => fin_step mid lag s)
                    (reset_j s1) in
        sfmt_init_by_array init_key L g
        = Ok (period_certification (mk_sfmt (m_psfmt32 s2) SFMT_N32))
        /\ m_j s2 = SFMT_N32)
    /\ forall s, mix_inv s ->
         let p := m_psfmt32 s in
         let i := m_i s in
         let a := (i + mid) mod SFMT_N32 in
         let b := (i + mid + lag) mod SFMT_N32 in
         let r := func2 (u32 (rd p i + rd p a
                              + rd p ((i + SFMT_N32 - 1) mod SFMT_N32))) in
         let r' := u32 (r - i) in
         let p1 := wr p a (Z.lxor (rd p a) r) in
         let p' := m_psfmt32 (fin_step mid lag s) in
         mix_inv (fin_step mid lag s)
         /\ m_i (fin_step mid lag s) = (i + 1) mod SFMT_N32
         /\ rd p' i = r'
         /\ (b <> i -> rd p' b = Z.lxor (rd p1 b) r')
         /\ (a <> i -> a <> b -> rd p' a = Z.lxor (rd p a) r)
         /\ (forall x, 0 <= x -> x <> i -> x <> a -> x <> b ->
               rd p' x = rd p x).
Proof.
  intros HN L lag mid.
  assert (HN32 : 0 < SFMT_N32) by (unfold SFMT_N32; lia).
  pose proof (mid_nonneg (SFMT_N * 4) ltac:(lia)) as (_ & Hmid & _).
  pose proof (lag_of_bounds (SFMT_N * 4) ltac:(lia)) as [Hlag _].
  fold lag in Hmid, Hlag. fold mid in Hmid.
  pose proof (phase1_schedule init_key HN) as Hph. cbv zeta in Hph.
  fold L lag mid in Hph.
  eexists. split; [exact Hph|].
  split; [apply schedule_fold_inv, initial_mix_inv, HN|].
  split.
  { cbv zeta. split.
    - unfold sfmt_init_by_array. fold lag mid. rewrite Hph. reflexivity.
    - unfold for_range. rewrite fold_left_m_j by reflexivity.
      rewrite length_zrange. cbn [reset_j m_j]. lia. }
  intros s Hs p i a b r r' p1 p'.
  assert (Hp' : p' = wr (wr p1 b (Z.lxor (rd p1 b) r')) i r').
  { unfold p'. rewrite fin_step_diffuse2 by (lia || exact Hs). reflexivity. }
  destruct Hs as [Hi Hlen]. fold i in Hi. fold p in Hlen.
  assert (Ha : 0 <= a < SFMT_N32) by (apply Z.mod_pos_bound; lia).
  assert (Hb : 0 <= b < SFMT_N32) by (apply Z.mod_pos_bound; lia).
  assert (Hl1 : length p1 = Z.to_nat SFMT_N32)
    by (unfold p1; rewrite length_wr; exact Hlen).
  split.
  { rewrite fin_step_diffuse2 by (lia || split; assumption).
    apply diffuse2_inv. split; assumption. }
  split.
  { rewrite fin_step_diffuse2 by (lia || split; assumption). reflexivity. }
  rewrite Hp'.
  split; [apply rd_wr_eq; [lia|rewrite length_wr; lia]|].
  split.
  { intros Hbi. rewrite rd_wr_ne by lia. apply rd_wr_eq; lia. }
  split.
  { intros Hai Hab. rewrite !rd_wr_ne by lia. unfold p1.
    apply rd_wr_eq; lia. }
  intros x Hx Hxi Hxa Hxb. rewrite !rd_wr_ne by lia.
  unfold p1. apply rd_wr_ne; lia.
Qed.

(** ** Equality of instances *)

Lemma lor_bit_double (c m : Z) :
  0 <= m -> c = 0 \/ c = 1 -> Z.lor c (Z.shiftl m 1) = 2 * m + c.
Proof.
  intros Hm Hc. rewrite Z.shiftl_mul_pow2 by lia.
  change (2 ^ 1) with 2.
  destruct Hc as [-> | ->].
  - rewrite Z.lor_0_l. lia.
  - destruct m as [|q|q]; [reflexivity| |lia].
    replace (Z.pos q * 2) with (Z.pos q~0) by lia. reflexivity.
Qed.

(** The mask of a byte-wise comparison has all its bits set exactly when
    the two byte sequences agree. *)
Lemma movemask_cmpeq (a b : list Z) :
  length a = length b ->
  0 <= mm_movemask_epi8 (mm_cmpeq_epi8 a b)
    <= Z.ones (Z.of_nat (length a))
  /\ (mm_movemask_epi8 (mm_cmpeq_epi8 a b) = Z.ones (Z.of_nat (length a))
      <-> a = b).
Proof.
  revert b. induction a as [|x a IH]; intros [|y b] Hlen; try discriminate.
  - change (mm_movemask_epi8 (mm_cmpeq_epi8 [] [])) with 0.
    change (Z.ones (Z.of_nat (length (@nil Z)))) with 0.
    split; [lia|]. split; reflexivity.
  - injection Hlen as Hlen. destruct (IH b Hlen) as [Hr Hiff].
    unfold mm_cmpeq_epi8 in *. cbn [zip_with mm_movemask_epi8 fold_right length].
    fold (mm_movemask_epi8 (zip_with (fun x y => if x =? y then 255 else 0) a b)).
    set (m := mm_movemask_epi8 _) in *.
    rewrite Nat2Z.inj_succ, !Z.ones_equiv, Z.pow_succ_r by lia.
    rewrite Z.ones_equiv in Hr, Hiff. unfold Z.pred in *.
    set (P := 2 ^ Z.of_nat (length a)) in *.
    destruct (Z.eqb_spec x y) as [-> | Hne].
    + change (Z.shiftr 255 7) with 1. rewrite lor_bit_double by (lia || auto).
      split; [lia|]. split.
      * intros H. f_equal. apply Hiff. lia.
      * intros H. injection H as ->%Hiff. lia.
    + change (Z.shiftr 0 7) with 0. rewrite lor_bit_double by (lia || auto).
      split; [lia|]. split; [lia|]. intros H. injection H as H _. contradiction.
Qed.

Lemma bytes_inj x y :
  is_u32 x -> is_u32 y ->
  map (byte_of x) [0; 1; 2; 3] = map (byte_of y) [0; 1; 2; 3] -> x = y.
Proof.
  unfold is_u32, byte_of. intros Hx Hy H. cbn [map] in H.
  change 255 with (Z.ones 8) in H.
  rewrite !Z.land_ones, !Z.shiftr_div_pow2 in H by lia.
  injection H as H0 H1 H2 H3.
  change (8 * 0) with 0 in *. change (8 * 1) with 8 in *.
  change (8 * 2) with 16 in *. change (8 * 3) with 24 in *.
  change (2 ^ 32) with 4294967296 in *. change (2 ^ 0) with 1 in *.
  change (2 ^ 8) with 256 in *. change (2 ^ 16) with 65536 in *.
  change (2 ^ 24) with 16777216 in *.
  Z.div_mod_to_equations. lia.
Qed.

Lemma si_bytes_inj a b k :
  Forall is_u32 a -> Forall is_u32 b ->
  si_bytes a k = si_bytes b k <-> lanes a k = lanes b k.
Proof.
  intros Ha Hb. unfold si_bytes, lanes. cbn [flat_map map app]. split.
  - intros H. injection H as ? ? ? ? ? ? ? ? ? ? ? ? ? ? ? ?.
    assert (E : forall l, map (byte_of (rd a (4 * k + l))) [0; 1; 2; 3]
                          = map (byte_of (rd b (4 * k + l))) [0; 1; 2; 3] ->
                          rd a (4 * k + l) = rd b (4 * k + l)).
    { intros l. apply bytes_inj; apply is_u32_rd; assumption. }
    rewrite (E 0), (E 1), (E 2), (E 3) by (cbn [map]; congruence).
    reflexivity.
  - intros H. injection H as -> -> -> ->. reflexivity.
Qed.

(** One round of the comparison loop goes on exactly when the two 128-bit
    words are the same. *)
Lemma word_compare a b k :
  Forall is_u32 a -> Forall is_u32 b ->
  (mm_movemask_epi8 (mm_cmpeq_epi8 (si_bytes a k) (si_bytes b k)) =? 0xffff)
  = true <-> lanes a k = lanes b k.
Proof.
  intros Ha Hb. rewrite Z.eqb_eq, <- (si_bytes_inj a b k Ha Hb).
  destruct (movemask_cmpeq (si_bytes a k) (si_bytes b k) eq_refl) as [_ H].
  exact H.
Qed.

Lemma cmp_loop_spec a b n u :
  Forall is_u32 a -> Forall is_u32 b ->
  match cmp_loop n u a b with
  | None => forall k, u <= k < u + Z.of_nat n -> lanes a k = lanes b k
  | Some k =>
      u <= k < u + Z.of_nat n /\ lanes a k <> lanes b k
      /\ forall k', u <= k' < k -> lanes a k' = lanes b k'
  end.
Proof.
  intros Ha Hb. revert u. induction n as [|n IH]; intros u; cbn [cmp_loop].
  - intros k Hk. lia.
  - pose proof (word_compare a b u Ha Hb) as Hw.
    destruct (mm_movemask_epi8 _ =? 65535) eqn:Hcmp; cbn [negb].
    + specialize (IH (u + 1)). destruct (cmp_loop n (u + 1) a b) as [k|].
      * destruct IH as (Hk & Hne & Hbefore). split; [lia|]. split; [exact Hne|].
        intros k' Hk'. destruct (Z.eq_dec k' u) as [-> | Hku].
        -- apply Hw. reflexivity.
        -- apply Hbefore. lia.
      * intros k Hk. destruct (Z.eq_dec k u) as [-> | Hku].
        -- apply Hw. reflexivity.
        -- apply IH. lia.
    + split; [lia|]. split; [|intros k' Hk'; lia].
      intros Heq. apply Hw in Heq. congruence.
Qed.

Lemma lanes_eq_rd a b k l :
  lanes a k = lanes b k -> 0 <= l < 4 -> rd a (4 * k + l) = rd b (4 * k + l).
Proof.
  unfold lanes. cbn [map]. intros H Hl. injection H as H0 H1 H2 H3.
  assert (l = 0 \/ l = 1 \/ l = 2 \/ l = 3) as [-> | [-> | [-> | ->]]] by lia;
    assumption.
Qed.

Lemma lanes_eq_state a b :
  length a = Z.to_nat SFMT_N32 -> length b = Z.to_nat SFMT_N32 ->
  (forall k, 0 <= k < SFMT_N -> lanes a k = lanes b k) -> a = b.
Proof.
  intros Hla Hlb H. apply list_eq. intros j.
  destruct (Nat.lt_ge_cases j (Z.to_nat SFMT_N32)) as [Hj|Hj].
  - unfold SFMT_N32 in *.
    pose proof (lanes_eq_rd a b (Z.of_nat j / 4) (Z.of_nat j mod 4)) as Hrd.
    rewrite <- Z.div_mod in Hrd by lia. unfold rd in Hrd.
    rewrite Nat2Z.id in Hrd.
    destruct (lookup_lt_is_Some_2 a j ltac:(lia)) as [x Hx].
    destruct (lookup_lt_is_Some_2 b j ltac:(lia)) as [y Hy].
    rewrite Hx, Hy in *. cbn in Hrd. f_equal. apply Hrd.
    + apply H. split; [apply Z.div_pos; lia|].
      apply Z.div_lt_upper_bound; lia.
    + apply Z.mod_pos_bound. lia.
  - rewrite !lookup_ge_None_2 by lia. reflexivity.
Qed.

(** C8. [A == B] holds exactly when the indices agree and every 128-bit
    state word of [A] equals the corresponding word of [B]; the loop returns
    at the first word that differs; [A != B] is the negation. *)
Theorem equality_contract (A B : sfmt_t) :
  wf_state (state A) -> wf_state (state B) ->
  (operator_eq A B = true
   <-> idx A = idx B
       /\ forall k, 0 <= k < SFMT_N -> lanes (state A) k = lanes (state B) k)
  /\ (operator_eq A B = true <-> A = B)
  /\ (forall k, 0 <= k < SFMT_N ->
        lanes (state A) k <> lanes (state B) k ->
        (forall k', 0 <= k' < k -> lanes (state A) k' = lanes (state B) k') ->
        cmp_loop (Z.to_nat SFMT_N) 0 (state A) (state B) = Some k)
  /\ operator_ne A B = negb (operator_eq A B).
Proof.
  intros [HlA HwA] [HlB HwB].
  pose proof (cmp_loop_spec (state A) (state B) (Z.to_nat SFMT_N) 0 HwA HwB)
    as Hloop.
  assert (Hfirst :
    operator_eq A B = true
    <-> idx A = idx B
        /\ forall k, 0 <= k < SFMT_N -> lanes (state A) k = lanes (state B) k).
  { unfold operator_eq.
    destruct (Z.eqb_spec (idx A) (idx B)) as [Hidx|Hidx]; cbn [negb].
    2:{ split; [discriminate|]. intros [H _]. contradiction. }
    destruct (cmp_loop _ 0 _ _) as [k|].
    - destruct Hloop as (Hk & Hne & _). split; [discriminate|].
      intros [_ H]. exfalso. apply Hne, H. lia.
    - split; [|reflexivity]. intros _. split; [exact Hidx|].
      intros k Hk. apply Hloop. lia. }
  split; [exact Hfirst|].
  split.
  { rewrite Hfirst. split.
    - intros [Hidx Hl]. destruct A as [a ia], B as [b ib]. cbn [state idx] in *.
      f_equal; [|exact Hidx]. apply lanes_eq_state; assumption.
    - intros ->. split; reflexivity. }
  split; [|reflexivity].
  intros k Hk Hne Hbefore.
  destruct (cmp_loop _ 0 _ _) as [k0|].
  - destruct Hloop as (Hk0 & Hne0 & Hbefore0). f_equal.
    destruct (Z.lt_trichotomy k0 k) as [Hlt|[Heq|Hgt]]; [|exact Heq|].
    + exfalso. apply Hne0, Hbefore. lia.
    + exfalso. apply Hne, Hbefore0. lia.
  - exfalso. apply Hne, Hloop. lia.
Qed.

Lemma cmp_loop_refl n u a : cmp_loop n u a a = None.
Proof.
  revert u. induction n as [|n IH]; intros u; cbn [cmp_loop]; [reflexivity|].
  destruct (movemask_cmpeq (si_bytes a u) (si_bytes a u) eq_refl) as [_ H].
  rewrite (proj2 H eq_refl). apply IH.
Qed.

Lemma operator_eq_refl g : operator_eq g g = true.
Proof.
  unfold operator_eq. rewrite Z.eqb_refl, cmp_loop_refl. reflexivity.
Qed.

Lemma drive_agree cs g : Forall2 agree (drive cs g) (drive cs g).
Proof.
  revert g. induction cs as [|c cs IH]; intros g; cbn [drive].
  - constructor.
  - destruct (perform c g) as [[g' out]| | |].
    + constructor; [|apply IH]. split; [reflexivity|apply operator_eq_refl].
    + repeat constructor.
    + repeat constructor.
    + repeat constructor.
Qed.

(** ** Bulk fill and determinism *)

(** C7. [sfmt_fill_array32] stops on a failed assertion unless the index is
    [N32], the size is a positive multiple of 4 and the size is at least
    [N32]; [sfmt_fill_array64] likewise with 2 and [N64].  When the
    conditions hold the call returns, with the index again [N32]. *)
Theorem fill_array_preconditions (g : sfmt_t) (size : Z) :
  0 < SFMT_N ->
  let pre32 := idx g = SFMT_N32 /\ (exists k, 0 < k /\ size = 4 * k)
               /\ SFMT_N32 <= size in
  let pre64 := idx g = SFMT_N32 /\ (exists k, 0 < k /\ size = 2 * k)
               /\ SFMT_N64 <= size in
  (~ pre32 -> sfmt_fill_array32 size g = AssertFail)
  /\ (pre32 -> exists g' out,
                 sfmt_fill_array32 size g = Ok (g', out) /\ idx g' = SFMT_N32)
  /\ (~ pre64 -> sfmt_fill_array64 size g = AssertFail)
  /\ (pre64 -> exists g' out,
                 sfmt_fill_array64 size g = Ok (g', out) /\ idx g' = SFMT_N32).
Proof.
  intros HN pre32 pre64.
  assert (H32 : 0 < SFMT_N32) by (unfold SFMT_N32; lia).
  assert (H64 : 0 < SFMT_N64) by (unfold SFMT_N64; lia).
  unfold sfmt_fill_array32, sfmt_fill_array64.
  destruct (Z.eqb_spec (idx g) SFMT_N32) as [Hidx|Hidx]; cbn [negb].
  2:{ repeat split; try reflexivity; intros [H _]; contradiction. }
  split; [|split; [|split]].
  - intros Hpre.
    destruct (Z.eqb_spec (Z.rem size 4) 0) as [Hrem|Hrem]; [|reflexivity].
    destruct (Z.leb_spec SFMT_N32 size) as [Hle|Hle]; [|reflexivity].
    exfalso. apply Hpre. split; [exact Hidx|]. split; [|exact Hle].
    apply Z.rem_divide in Hrem as [k Hk]; [|lia]. exists k. lia.
  - intros (_ & (k & Hk & ->) & Hle).
    replace (Z.rem (4 * k) 4) with 0
      by (symmetry; apply Z.rem_divide; [lia|exists k; lia]).
    cbn [Z.eqb negb]. destruct (Z.leb_spec SFMT_N32 (4 * k)); [|lia].
    cbn [negb]. destruct (gen_rand_array _ _) as [st out].
    exists (mk_sfmt st SFMT_N32), out. split; reflexivity.
  - intros Hpre.
    destruct (Z.eqb_spec (Z.rem size 2) 0) as [Hrem|Hrem]; [|reflexivity].
    destruct (Z.leb_spec SFMT_N64 size) as [Hle|Hle]; [|reflexivity].
    exfalso. apply Hpre. split; [exact Hidx|]. split; [|exact Hle].
    apply Z.rem_divide in Hrem as [k Hk]; [|lia]. exists k. lia.
  - intros (_ & (k & Hk & ->) & Hle).
    replace (Z.rem (2 * k) 2) with 0
      by (symmetry; apply Z.rem_divide; [lia|exists k; lia]).
    cbn [Z.eqb negb]. destruct (Z.leb_spec SFMT_N64 (2 * k)); [|lia].
    cbn [negb]. destruct (gen_rand_array _ _) as [st out].
    exists (mk_sfmt st SFMT_N32), (as_u64 out). split; reflexivity.
Qed.

(** C1. Two instances with arbitrary previous contents, seeded with the
    same 32-bit integer and driven through the same sequence of seeding and
    bulk-fill calls, compare equal after the seeding and after every call,
    hand out the same words at every call, and stop at the same call in the
    same way if a call does not return. *)
Theorem determinism (seed : Z) (cs : list call) (g1 g2 : sfmt_t) :
  0 < SFMT_N ->
  length (state g1) = Z.to_nat SFMT_N32 ->
  length (state g2) = Z.to_nat SFMT_N32 ->
  operator_eq (sfmt_init_gen_rand seed g1) (sfmt_init_gen_rand seed g2) = true
  /\ Forall2 agree (drive cs (sfmt_init_gen_rand seed g1))
                   (drive cs (sfmt_init_gen_rand seed g2)).
Proof.
  intros HN H1 H2.
  rewrite (sfmt_init_gen_rand_words seed g1 HN H1).
  rewrite (sfmt_init_gen_rand_words seed g2 HN H2).
  split; [apply operator_eq_refl|apply drive_agree].
Qed.

(** ** Helpers for the concrete instances *)

Lemma phase1_steps init_key :
  0 < SFMT_N ->
  exists s,
    init_by_array_phase1 init_key (Z.of_nat (length init_key)) = Ok s
    /\ m_j s = Z.max (Z.of_nat (length init_key) + 1) SFMT_N32 - 1.
Proof.
  intros HN. pose proof (phase1_schedule init_key HN) as Hph.
  cbv zeta in Hph. eexists. split; [exact Hph|].
  rewrite fold_left_m_j by reflexivity.
  rewrite length_zrange, count_of_max. cbn [initial_mix m_j].
  assert (0 < SFMT_N32) by (unfold SFMT_N32; lia). lia.
Qed.

(** * Further properties of the code *)

(** ** Invariants of seeding and certification *)

Lemma seed_word_range seed k : is_u32 seed -> is_u32 (seed_word seed k).
Proof. intros Hs. destruct k as [|k]; [exact Hs|apply u32_range]. Qed.

Lemma seed_words_range seed : is_u32 seed -> Forall is_u32 (seed_words seed).
Proof.
  intros Hs. unfold seed_words. apply Forall_forall. intros x Hx.
  apply list_elem_of_In, in_map_iff in Hx as (k & <- & _).
  apply seed_word_range, Hs.
Qed.

(** X1. Either seeding leaves a well-formed instance: [N32] words, each a
    32-bit value, and the index at [N32]. *)
Theorem seeding_establishes_wf (seed : Z) (init_key : list Z) (g : sfmt_t) :
  0 < SFMT_N -> is_u32 seed -> length (state g) = Z.to_nat SFMT_N32 ->
  (wf_state (state (sfmt_init_gen_rand seed g))
   /\ idx (sfmt_init_gen_rand seed g) = SFMT_N32)
  /\ exists g',
      sfmt_init_by_array init_key (Z.of_nat (length init_key)) g = Ok g'
      /\ wf_state (state g') /\ idx g' = SFMT_N32.
Proof.
  intros HN Hseed Hlen. split.
  - rewrite (sfmt_init_gen_rand_words seed g HN Hlen).
    split; [split|].
    + rewrite period_certification_length. apply seed_words_length.
    + apply period_certification_words. cbn [state].
      apply seed_words_range, Hseed.
    + rewrite period_certification_idx. reflexivity.
  - destruct (sfmt_init_by_array_run init_key g HN) as (Hrun & [_ Hl] & Hw).
    eexists. split; [exact Hrun|]. split; [split|].
    + rewrite period_certification_length. exact Hl.
    + apply period_certification_words. exact Hw.
    + rewrite period_certification_idx. reflexivity.
Qed.

Lemma key_loop_prefix fuel init_key extra key_length count mid lag s :
  0 <= m_j s -> key_length <= Z.of_nat (length init_key) ->
  key_loop fuel (init_key ++ extra) key_length count mid lag s
  = key_loop fuel init_key key_length count mid lag s.
Proof.
  revert s. induction fuel as [|fuel IH]; intros s Hj Hlen; [reflexivity|].
  cbn [key_loop].
  destruct ((m_j s <? count) && (m_j s <? key_length)) eqn:Hcond;
    [|reflexivity].
  apply andb_true_iff in Hcond as [_ Hk]. apply Z.ltb_lt in Hk.
  rewrite lookup_app_l by lia.
  destruct (init_key !! Z.to_nat (m_j s)) as [k|]; [|reflexivity].
  apply IH; [cbn [key_step m_j]; lia|exact Hlen].
Qed.

(** X2. [sfmt_init_by_array] reads at most the first [key_length] elements
    behind [init_key]: what follows them does not change the outcome (for a
    [key_length] of zero or less nothing is read). *)
Theorem init_by_array_reads_prefix (init_key extra : list Z) (key_length : Z)
    (g : sfmt_t) :
  key_length <= Z.of_nat (length init_key) ->
  sfmt_init_by_array (init_key ++ extra) key_length g
  = sfmt_init_by_array init_key key_length g.
Proof.
  intros Hlen. unfold sfmt_init_by_array, init_by_array_phase1.
  rewrite key_loop_prefix by (cbn [initial_mix m_j]; lia). reflexivity.
Qed.

Lemma period_certification_other_words g k :
  0 <= k -> k <> corrected_word ->
  rd (state (period_certification g)) k = rd (state g) k.
Proof.
  intros Hk Hne. rewrite period_certification_refines.
  unfold period_certification_spec, corrected_word in *.
  destruct (parity_fold (state g) =? 1); [reflexivity|].
  destruct first_parity_bit as [[i j]|] eqn:Hfirst; [|reflexivity].
  apply first_parity_bit_least in Hfirst as (Hi & _).
  cbn [state]. unfold flip_bit. apply rd_wr_ne; lia.
Qed.

Lemma corrected_word_range : 0 <= corrected_word < 4.
Proof.
  unfold corrected_word.
  destruct first_parity_bit as [[i j]|] eqn:Hfirst; [|lia].
  apply first_parity_bit_least in Hfirst as (Hi & _). exact Hi.
Qed.

(** X3. [period_certification] keeps the index, the number of words and
    their being 32-bit values, and leaves every word from index 4 on as it
    was. *)
Theorem period_certification_frame (g : sfmt_t) :
  idx (period_certification g) = idx g
  /\ length (state (period_certification g)) = length (state g)
  /\ (Forall is_u32 (state g) ->
      Forall is_u32 (state (period_certification g)))
  /\ forall k, 4 <= k ->
       state (period_certification g) !! Z.to_nat k = state g !! Z.to_nat k.
Proof.
  split; [apply period_certification_idx|].
  split; [apply period_certification_length|].
  split; [apply period_certification_words|].
  intros k Hk. rewrite period_certification_refines.
  unfold period_certification_spec.
  destruct (parity_fold (state g) =? 1); [reflexivity|].
  destruct first_parity_bit as [[i j]|] eqn:Hfirst; [|reflexivity].
  apply first_parity_bit_least in Hfirst as (Hi & _).
  cbn [state]. unfold flip_bit, wr. apply list_lookup_insert_ne. lia.
Qed.

(** ** Equality as a relation *)

Lemma word_compare_bytes a b k :
  (mm_movemask_epi8 (mm_cmpeq_epi8 (si_bytes a k) (si_bytes b k)) =? 0xffff)
  = true <-> si_bytes a k = si_bytes b k.
Proof.
  rewrite Z.eqb_eq.
  destruct (movemask_cmpeq (si_bytes a k) (si_bytes b k) eq_refl) as [_ H].
  exact H.
Qed.

Lemma cmp_loop_bytes a b n u :
  cmp_loop n u a b = None
  <-> forall k, u <= k < u + Z.of_nat n -> si_bytes a k = si_bytes b k.
Proof.
  revert u. induction n as [|n IH]; intros u; cbn [cmp_loop].
  - split; [intros _ k Hk; lia|reflexivity].
  - pose proof (word_compare_bytes a b u) as Hw.
    destruct (mm_movemask_epi8 _ =? 65535) eqn:Hcmp; cbn [negb].
    + rewrite IH. split.
      * intros H k Hk. destruct (Z.eq_dec k u) as [-> | Hne].
        -- apply Hw. reflexivity.
        -- apply H. lia.
      * intros H k Hk. apply H. lia.
    + split; [discriminate|]. intros H.
      assert (Hu : si_bytes a u = si_bytes b u) by (apply H; lia).
      apply Hw in Hu. discriminate.
Qed.

Lemma operator_eq_bytes A B :
  operator_eq A B = true
  <-> idx A = idx B
      /\ forall k, 0 <= k < Z.of_nat (Z.to_nat SFMT_N) ->
           si_bytes (state A) k = si_bytes (state B) k.
Proof.
  unfold operator_eq.
  destruct (Z.eqb_spec (idx A) (idx B)) as [Hidx|Hidx]; cbn [negb].
  2:{ split; [discriminate|]. intros [H _]. contradiction. }
  pose proof (cmp_loop_bytes (state A) (state B) (Z.to_nat SFMT_N) 0) as Hl.
  destruct (cmp_loop _ 0 _ _) as [k|].
  - split; [discriminate|]. intros [_ H].
    assert (Hnone : @None Z = None) by reflexivity.
    apply Hl in H. discriminate.
  - split; [|reflexivity]. intros _. split; [exact Hidx|].
    apply Hl. reflexivity.
Qed.

(** X4. [operator==] is an equivalence relation on instances: every
    instance equals itself, the result does not depend on the order of the
    operands, and equality carries over a chain of two comparisons. *)
Theorem operator_eq_equivalence :
  (forall A, operator_eq A A = true)
  /\ (forall A B, operator_eq A B = operator_eq B A)
  /\ (forall A B C,
        operator_eq A B = true -> operator_eq B C = true ->
        operator_eq A C = true).
Proof.
  split; [|split].
  - intros A. apply operator_eq_bytes. split; reflexivity.
  - intros A B.
    destruct (operator_eq A B) eqn:HAB, (operator_eq B A) eqn:HBA;
      try reflexivity.
    + apply operator_eq_bytes in HAB as [Hi Hw].
      assert (HBA' : operator_eq B A = true).
      { apply operator_eq_bytes. split; [congruence|].
        intros k Hk. symmetry. apply Hw, Hk. }
      congruence.
    + apply operator_eq_bytes in HBA as [Hi Hw].
      assert (HAB' : operator_eq A B = true).
      { apply operator_eq_bytes. split; [congruence|].
        intros k Hk. symmetry. apply Hw, Hk. }
      congruence.
  - intros A B C HAB HBC.
    apply operator_eq_bytes in HAB as [Hi1 Hw1].
    apply operator_eq_bytes in HBC as [Hi2 Hw2].
    apply operator_eq_bytes. split; [congruence|].
    intros k Hk. rewrite Hw1, Hw2 by exact Hk. reflexivity.
Qed.

Lemma operator_eq_true_eq A B :
  wf_state (state A) -> wf_state (state B) ->
  operator_eq A B = true -> A = B.
Proof.
  intros [HlA HwA] [HlB HwB] Heq.
  apply operator_eq_bytes in Heq as [Hidx Hbytes].
  destruct A as [a ia], B as [b ib]. cbn [state idx] in *.
  f_equal; [|exact Hidx]. apply lanes_eq_state; [assumption..|].
  intros k Hk. apply (si_bytes_inj a b k HwA HwB). apply Hbytes. lia.
Qed.

Lemma lxor_pow2_neq w j : 0 <= j -> Z.lxor w (2 ^ j) <> w.
Proof.
  intros Hj Heq.
  assert (Hbit : Z.testbit (Z.lxor w (2 ^ j)) j = Z.testbit w j)
    by (rewrite Heq; reflexivity).
  rewrite Z.lxor_spec, Z.pow2_bits_true in Hbit by lia.
  destruct (Z.testbit w j); discriminate.
Qed.

Lemma is_u32_pow2 j : 0 <= j < 32 -> is_u32 (2 ^ j).
Proof.
  intros Hj. unfold is_u32. split; [apply Z.pow_nonneg; lia|].
  apply Z.pow_lt_mono_r; lia.
Qed.

(** X5. Equality is bit-exact: flipping any single bit of any state word of
    a well-formed instance gives an instance that [operator==] tells apart
    from the original. *)
Theorem operator_eq_detects_bit_flip (g : sfmt_t) (i j : Z) :
  wf_state (state g) -> 0 <= i < SFMT_N32 -> 0 <= j < 32 ->
  operator_eq g (mk_sfmt (flip_bit (state g) i j) (idx g)) = false
  /\ operator_ne g (mk_sfmt (flip_bit (state g) i j) (idx g)) = true.
Proof.
  intros Hwf Hi Hj.
  assert (Hfalse :
    operator_eq g (mk_sfmt (flip_bit (state g) i j) (idx g)) = false).
  { destruct (operator_eq g _) eqn:Heq; [|reflexivity]. exfalso.
    destruct Hwf as [Hlen Hw].
    apply operator_eq_true_eq in Heq.
    - assert (Hrd : rd (state g) i = rd (flip_bit (state g) i j) i)
        by (rewrite Heq at 1; reflexivity).
      unfold flip_bit in Hrd. rewrite rd_wr_eq in Hrd by lia.
      symmetry in Hrd. exact (lxor_pow2_neq _ j (proj1 Hj) Hrd).
    - split; assumption.
    - cbn [state]. unfold flip_bit. split; [rewrite length_wr; exact Hlen|].
      apply Forall_wr; [exact Hw|].
      apply is_u32_lxor; [apply is_u32_rd, Hw|apply is_u32_pow2, Hj]. }
  split; [exact Hfalse|]. unfold operator_ne. rewrite Hfalse. reflexivity.
Qed.

(** ** Composition of calls *)

Lemma fill_array32_returns size g :
  idx g = SFMT_N32 -> Z.rem size 4 = 0 -> SFMT_N32 <= size ->
  exists g' out,
    sfmt_fill_array32 size g = Ok (g', out) /\ idx g' = SFMT_N32.
Proof.
  intros Hidx Hrem Hle. unfold sfmt_fill_array32.
  rewrite (proj2 (Z.eqb_eq _ _) Hidx), (proj2 (Z.eqb_eq _ _) Hrem).
  rewrite (proj2 (Z.leb_le _ _) Hle). cbn [negb].
  destruct (gen_rand_array _ _) as [st out].
  exists (mk_sfmt st SFMT_N32), out. split; reflexivity.
Qed.

Lemma fill_array64_returns size g :
  idx g = SFMT_N32 -> Z.rem size 2 = 0 -> SFMT_N64 <= size ->
  exists g' out,
    sfmt_fill_array64 size g = Ok (g', out) /\ idx g' = SFMT_N32.
Proof.
  intros Hidx Hrem Hle. unfold sfmt_fill_array64.
  rewrite (proj2 (Z.eqb_eq _ _) Hidx), (proj2 (Z.eqb_eq _ _) Hrem).
  rewrite (proj2 (Z.leb_le _ _) Hle). cbn [negb].
  destruct (gen_rand_array _ _) as [st out].
  exists (mk_sfmt st SFMT_N32), (as_u64 out). split; reflexivity.
Qed.

Lemma perform_idx c g g' out :
  perform c g = Ok (g', out) -> idx g' = SFMT_N32.
Proof.
  destruct c as [seed|init_key key_length|size|size]; cbn [perform].
  - intros H. injection H as <- _. unfold sfmt_init_gen_rand.
    apply period_certification_idx.
  - unfold sfmt_init_by_array.
    destruct (init_by_array_phase1 init_key key_length) as [s1| | |];
      try discriminate.
    intros H. injection H as <- _. apply period_certification_idx.
  - unfold sfmt_fill_array32.
    destruct (negb (idx g =? SFMT_N32)); [discriminate|].
    destruct (negb (Z.rem size 4 =? 0)); [discriminate|].
    destruct (negb (SFMT_N32 <=? size)); [discriminate|].
    destruct (gen_rand_array _ _) as [st o]. intros H. injection H as <- _.
    reflexivity.
  - unfold sfmt_fill_array64.
    destruct (negb (idx g =? SFMT_N32)); [discriminate|].
    destruct (negb (Z.rem size 2 =? 0)); [discriminate|].
    destruct (negb (SFMT_N64 <=? size)); [discriminate|].
    destruct (gen_rand_array _ _) as [st o]. intros H. injection H as <- _.
    reflexivity.
Qed.

(** X6. Whatever call has returned (either seeding, either bulk fill), the
    index is [N32], so a bulk fill may follow directly: a 32-bit fill of any
    size that is a multiple of 4 and at least [N32], a 64-bit fill of any
    even size at least [N64], and in particular fills of the two published
    minimum sizes, all return. *)
Theorem bulk_fill_after_any_call (c : call) (g g' : sfmt_t) (out : list Z) :
  0 < SFMT_N -> perform c g = Ok (g', out) ->
  idx g' = SFMT_N32
  /\ (forall k, SFMT_N <= k ->
        exists h o, sfmt_fill_array32 (4 * k) g' = Ok (h, o))
  /\ (forall k, SFMT_N <= k ->
        exists h o, sfmt_fill_array64 (2 * k) g' = Ok (h, o))
  /\ (exists h o, sfmt_fill_array32 sfmt_get_min_array_size32 g' = Ok (h, o))
  /\ (exists h o, sfmt_fill_array64 sfmt_get_min_array_size64 g' = Ok (h, o)).
Proof.
  intros HN Hcall. pose proof (perform_idx c g g' out Hcall) as Hidx.
  assert (H32 : forall k, SFMT_N <= k ->
            exists h o, sfmt_fill_array32 (4 * k) g' = Ok (h, o)).
  { intros k Hk.
    destruct (fill_array32_returns (4 * k) g' Hidx) as (h & o & Hr & _).
    - apply Z.rem_divide; [lia|]. exists k. lia.
    - unfold SFMT_N32. lia.
    - exists h, o. exact Hr. }
  assert (H64 : forall k, SFMT_N <= k ->
            exists h o, sfmt_fill_array64 (2 * k) g' = Ok (h, o)).
  { intros k Hk.
    destruct (fill_array64_returns (2 * k) g' Hidx) as (h & o & Hr & _).
    - apply Z.rem_divide; [lia|]. exists k. lia.
    - unfold SFMT_N64. lia.
    - exists h, o. exact Hr. }
  split; [exact Hidx|]. split; [exact H32|]. split; [exact H64|].
  split.
  - unfold sfmt_get_min_array_size32, SFMT_N32.
    rewrite Z.mul_comm. apply H32. lia.
  - unfold sfmt_get_min_array_size64, SFMT_N64.
    rewrite Z.mul_comm. apply H64. lia.
Qed.

(** X7. A 64-bit fill of [size] words is the 32-bit fill of [2 * size]
    words with the buffer read as 64-bit words, low lane first: it fails in
    the same cases, and otherwise leaves the same instance and the same
    buffer contents. *)
Theorem fill_array64_as_fill_array32 (size : Z) (g : sfmt_t) :
  sfmt_fill_array64 size g
  = match sfmt_fill_array32 (2 * size) g with
    | Ok (g', out) => Ok (g', as_u64 out)
    | KeyFault => KeyFault
    | AssertFail => AssertFail
    | OutOfFuel => OutOfFuel
    end.
Proof.
  unfold sfmt_fill_array64, sfmt_fill_array32.
  destruct (negb (idx g =? SFMT_N32)); [reflexivity|].
  assert (Hrem : (Z.rem (2 * size) 4 =? 0) = (Z.rem size 2 =? 0)).
  { change 4 with (2 * 2). rewrite Z.mul_rem_distr_l by lia.
    destruct (Z.eqb_spec (Z.rem size 2) 0) as [-> | Hne].
    - reflexivity.
    - apply Z.eqb_neq. lia. }
  rewrite Hrem. destruct (negb (Z.rem size 2 =? 0)); [reflexivity|].
  assert (Hle : (SFMT_N32 <=? 2 * size) = (SFMT_N64 <=? size)).
  { unfold SFMT_N32, SFMT_N64.
    destruct (Z.leb_spec (SFMT_N * 2) size);
      [apply Z.leb_le|apply Z.leb_gt]; lia. }
  rewrite Hle. destruct (negb (SFMT_N64 <=? size)); [reflexivity|].
  assert (Hquot : Z.quot (2 * size) 4 = Z.quot size 2).
  { change 4 with (2 * 2). apply Z.quot_mul_cancel_l; lia. }
  rewrite Hquot. destruct (gen_rand_array _ _) as [st out]. reflexivity.
Qed.

(** ** The correction and the fold *)

Lemma first_parity_bit_odd :
  Z.odd SFMT_PARITY1 = true -> first_parity_bit = Some (0, 0).
Proof.
  intros Hodd. rewrite first_parity_bit_unfold. cbn [fold_right].
  rewrite (zrange_cons 0 32) by lia. cbn [find].
  assert (Hbit : Z.testbit (rd parity 0) 0 = true).
  { change (rd parity 0) with (u32 SFMT_PARITY1). unfold u32.
    rewrite Z.mod_pow2_bits_low by lia. rewrite Z.bit0_odd. exact Hodd. }
  rewrite Hbit. reflexivity.
Qed.

(** X8. When the first parity word is odd, as in the parameter set of
    exponent 19937, the only correction [period_certification] ever makes is
    to toggle the lowest bit of word 0, and it makes it exactly when the
    fold is not 1. *)
Theorem period_certification_toggles_word0 (g : sfmt_t) :
  Z.odd SFMT_PARITY1 = true ->
  period_certification g
  = if inner_bit (state g) =? 1 then g
    else mk_sfmt (wr (state g) 0 (Z.lxor (rd (state g) 0) 1)) (idx g).
Proof.
  intros Hodd. rewrite period_certification_refines, inner_bit_spec.
  unfold period_certification_spec.
  rewrite (first_parity_bit_odd Hodd). reflexivity.
Qed.

Lemma testbit_as_xor_bits y :
  Z.testbit y 0 = fold_right xorb false (map (Z.testbit y) (zrange 0 1)).
Proof.
  change (zrange 0 1) with [0]. cbn [map fold_right].
  rewrite xorb_false_r. reflexivity.
Qed.

Lemma xor_bits_lxor (l : list Z) a b :
  fold_right xorb false (map (Z.testbit (Z.lxor a b)) l)
  = xorb (fold_right xorb false (map (Z.testbit a) l))
         (fold_right xorb false (map (Z.testbit b) l)).
Proof.
  induction l as [|k l IH]; cbn [map fold_right]; [reflexivity|].
  rewrite IH, Z.lxor_spec. btauto.
Qed.

Lemma xor_bits_app (l1 l2 : list Z) x :
  fold_right xorb false (map (Z.testbit x) (l1 ++ l2))
  = xorb (fold_right xorb false (map (Z.testbit x) l1))
         (fold_right xorb false (map (Z.testbit x) l2)).
Proof.
  induction l1 as [|k l1 IH]; cbn [app map fold_right].
  - destruct (fold_right _ _ _); reflexivity.
  - rewrite IH. btauto.
Qed.

Lemma xor_bits_shiftr (l : list Z) m x :
  Forall (fun k => 0 <= k) l ->
  fold_right xorb false (map (Z.testbit (Z.shiftr x m)) l)
  = fold_right xorb false (map (Z.testbit x) (map (fun k => k + m) l)).
Proof.
  induction 1 as [|k l Hk Hl IH]; cbn [map fold_right]; [reflexivity|].
  rewrite IH, Z.shiftr_spec by exact Hk. reflexivity.
Qed.

(** One round of the fold halves the number of bits whose XOR is taken. *)
Lemma xor_bits_halve (l : list Z) m x :
  Forall (fun k => 0 <= k) l ->
  fold_right xorb false
    (map (Z.testbit (Z.lxor x (Z.shiftr x m))) l)
  = fold_right xorb false
      (map (Z.testbit x) (l ++ map (fun k => k + m) l)).
Proof.
  intros Hl. rewrite xor_bits_lxor, xor_bits_app, xor_bits_shiftr by exact Hl.
  reflexivity.
Qed.

Lemma testbit_fold_parity x : Z.testbit (spec_fold x) 0 = bit_parity x.
Proof.
  unfold spec_fold, bit_parity. cbn [fold_left].
  assert (Hnn : forall n, Forall (fun k => 0 <= k) (zrange 0 n)).
  { intros n. apply List.Forall_forall. intros k Hk.
    apply in_zrange in Hk. lia. }
  rewrite testbit_as_xor_bits.
  rewrite (xor_bits_halve (zrange 0 1) 1) by apply Hnn.
  change (zrange 0 1 ++ map (fun k => k + 1) (zrange 0 1)) with (zrange 0 2).
  rewrite (xor_bits_halve (zrange 0 2) 2) by apply Hnn.
  change (zrange 0 2 ++ map (fun k => k + 2) (zrange 0 2)) with (zrange 0 4).
  rewrite (xor_bits_halve (zrange 0 4) 4) by apply Hnn.
  change (zrange 0 4 ++ map (fun k => k + 4) (zrange 0 4)) with (zrange 0 8).
  rewrite (xor_bits_halve (zrange 0 8) 8) by apply Hnn.
  change (zrange 0 8 ++ map (fun k => k + 8) (zrange 0 8)) with (zrange 0 16).
  rewrite (xor_bits_halve (zrange 0 16) 16) by apply Hnn.
  reflexivity.
Qed.

(** X9. The bit that [period_certification] tests is the parity of the
    masked state: the XOR of all 32 bits of the XOR of [word[i] & parity[i]]
    over the first four words.  The signed shifts of the fold do not leak
    into it. *)
Theorem inner_bit_is_parity (psfmt32 : list Z) :
  inner_bit psfmt32
  = Z.b2z (bit_parity
             (Z.lxor (Z.lxor (Z.lxor (Z.land (rd psfmt32 0) (rd parity 0))
                                     (Z.land (rd psfmt32 1) (rd parity 1)))
                             (Z.land (rd psfmt32 2) (rd parity 2)))
                     (Z.land (rd psfmt32 3) (rd parity 3)))).
Proof.
  rewrite inner_bit_spec. unfold parity_fold.
  rewrite land_1_bit, testbit_fold_parity. reflexivity.
Qed.

(** ** Seeds and states *)

Lemma u32_affine_inj a b k :
  u32 (1812433253 * a + k) = u32 (1812433253 * b + k) -> u32 a = u32 b.
Proof.
  unfold u32. intros H.
  assert (Hdiv : (2 ^ 32 | 1812433253 * (a - b))).
  { apply Z.mod_divide; [lia|].
    replace (1812433253 * (a - b))
      with (1812433253 * a + k - (1812433253 * b + k)) by lia.
    rewrite Zminus_mod, H, Z.sub_diag. reflexivity. }
  apply Z.gauss in Hdiv; [|reflexivity].
  destruct Hdiv as [q Hq].
  replace a with (b + q * 2 ^ 32) by lia. apply Z_mod_plus_full.
Qed.

Lemma xorshift30_inv w : is_u32 w ->
  Z.lxor (Z.lxor w (Z.shiftr w 30)) (Z.shiftr (Z.lxor w (Z.shiftr w 30)) 30)
  = w.
Proof.
  intros Hw. rewrite Z.shiftr_lxor, Z.shiftr_shiftr by lia.
  assert (H60 : Z.shiftr w (30 + 30) = 0).
  { rewrite Z.shiftr_div_pow2 by lia. apply Z.div_small.
    unfold is_u32 in Hw. change (2 ^ 32) with 4294967296 in Hw.
    change (2 ^ (30 + 30)) with 1152921504606846976. lia. }
  rewrite H60, Z.lxor_0_r, Z.lxor_assoc, Z.lxor_nilpotent, Z.lxor_0_r.
  reflexivity.
Qed.

Lemma is_u32_xorshift30 w : is_u32 w -> is_u32 (Z.lxor w (Z.shiftr w 30)).
Proof.
  intros Hw. apply is_u32_lxor; [exact Hw|].
  unfold is_u32 in *. rewrite Z.shiftr_div_pow2 by lia.
  change (2 ^ 30) with 1073741824. change (2 ^ 32) with 4294967296 in *.
  split; [apply Z.div_pos; lia|].
  apply Z.div_lt_upper_bound; lia.
Qed.

(** Each word of the seeding recurrence determines the seed. *)
Lemma seed_word_inj s1 s2 k :
  is_u32 s1 -> is_u32 s2 -> seed_word s1 k = seed_word s2 k -> s1 = s2.
Proof.
  intros H1 H2. induction k as [|k IH]; cbn [seed_word]; [auto|].
  intros H. apply u32_affine_inj in H.
  pose proof (seed_word_range s1 k H1) as R1.
  pose proof (seed_word_range s2 k H2) as R2.
  rewrite !u32_small in H by (apply is_u32_xorshift30; assumption).
  apply IH. rewrite <- (xorshift30_inv _ R1), <- (xorshift30_inv _ R2), H.
  reflexivity.
Qed.

Lemma sfmt_init_gen_rand_wf seed g :
  0 < SFMT_N -> is_u32 seed -> length (state g) = Z.to_nat SFMT_N32 ->
  wf_state (state (sfmt_init_gen_rand seed g)).
Proof.
  intros HN Hseed Hlen. rewrite (sfmt_init_gen_rand_words seed g HN Hlen).
  split.
  - rewrite period_certification_length. apply seed_words_length.
  - apply period_certification_words. cbn [state].
    apply seed_words_range, Hseed.
Qed.

(** X10. Instances seeded with different 32-bit integers never compare
    equal, whatever they held before. *)
Theorem distinct_seeds_distinct_instances (s1 s2 : Z) (g1 g2 : sfmt_t) :
  0 < SFMT_N -> is_u32 s1 -> is_u32 s2 ->
  length (state g1) = Z.to_nat SFMT_N32 ->
  length (state g2) = Z.to_nat SFMT_N32 ->
  s1 <> s2 ->
  operator_eq (sfmt_init_gen_rand s1 g1) (sfmt_init_gen_rand s2 g2) = false
  /\ operator_ne (sfmt_init_gen_rand s1 g1) (sfmt_init_gen_rand s2 g2) = true.
Proof.
  intros HN H1 H2 Hl1 Hl2 Hne.
  assert (Hfalse :
    operator_eq (sfmt_init_gen_rand s1 g1) (sfmt_init_gen_rand s2 g2) = false).
  { destruct (operator_eq _ _) eqn:Heq; [|reflexivity]. exfalso. apply Hne.
    apply operator_eq_true_eq in Heq; try (apply sfmt_init_gen_rand_wf; assumption).
    rewrite (sfmt_init_gen_rand_words s1 g1 HN Hl1) in Heq.
    rewrite (sfmt_init_gen_rand_words s2 g2 HN Hl2) in Heq.
    assert (HN32 : 4 <= SFMT_N32) by (unfold SFMT_N32; lia).
    pose proof corrected_word_range as Hc.
    set (k := if corrected_word =? 0 then 1 else 0).
    assert (Hk : 0 <= k < SFMT_N32 /\ k <> corrected_word).
    { unfold k. destruct (Z.eqb_spec corrected_word 0); lia. }
    assert (Hrd : forall s, rd (state (period_certification
                                  (mk_sfmt (seed_words s) SFMT_N32))) k
                            = seed_word s (Z.to_nat k)).
    { intros s. rewrite period_certification_other_words by lia.
      cbn [state]. apply rd_lookup, seed_words_lookup. lia. }
    apply (seed_word_inj s1 s2 (Z.to_nat k) H1 H2).
    rewrite <- !Hrd, Heq. reflexivity. }
  split; [exact Hfalse|]. unfold operator_ne. rewrite Hfalse. reflexivity.
Qed.

(** ** Indices of the key seeding *)

(** X11. Every index that [sfmt_init_by_array] uses lies inside the state
    array: the fixed positions [0], [mid], [mid + lag] and [N32 - 1] of the
    initial mixing, and for a running index inside the array the three
    positions of a step and the next running index. *)
Theorem init_by_array_indices_in_bounds :
  0 < SFMT_N ->
  let lag := lag_of (SFMT_N * 4) in
  let mid := Z.quot (SFMT_N * 4 - lag) 2 in
  0 <= mid < SFMT_N32
  /\ 0 <= mid + lag < SFMT_N32
  /\ 0 <= SFMT_N32 - 1 < SFMT_N32
  /\ forall i, 0 <= i < SFMT_N32 ->
       0 <= Z.rem (i + mid) SFMT_N32 < SFMT_N32
       /\ 0 <= Z.rem (i + mid + lag) SFMT_N32 < SFMT_N32
       /\ 0 <= Z.rem (i + SFMT_N32 - 1) SFMT_N32 < SFMT_N32
       /\ 0 <= Z.rem (i + 1) SFMT_N32 < SFMT_N32.
Proof.
  intros HN lag mid.
  pose proof (mid_nonneg (SFMT_N * 4) ltac:(lia)) as (_ & Hmid & Hsum).
  pose proof (lag_of_bounds (SFMT_N * 4) ltac:(lia)) as [Hlag _].
  fold lag in Hmid, Hsum, Hlag. fold mid in Hmid, Hsum.
  unfold SFMT_N32. split; [lia|]. split; [lia|]. split; [lia|].
  intros i Hi. rewrite !Z.rem_mod_nonneg by lia.
  repeat split; apply Z.mod_pos_bound; lia.
Qed.

(** ** Fixed points of the correction, and keys that are too short *)

(** X12. With parity words that are not all zero, [period_certification]
    leaves an instance unchanged exactly when the bit it tests is already
    1: the certified instances are its fixed points. *)
Theorem period_certification_fixed_points (g : sfmt_t) :
  Exists (fun p => p <> 0) parity -> (4 <= length (state g))%nat ->
  period_certification g = g <-> inner_bit (state g) = 1.
Proof.
  intros Hpar Hlen. rewrite inner_bit_spec. split.
  - intros Hfix. rewrite <- Hfix.
    apply period_certification_parity;
      [apply parity_nonzero_first_bit, Hpar|exact Hlen].
  - intros Hodd. rewrite period_certification_refines.
    apply pc_spec_odd, Hodd.
Qed.



End Generator.

(** * The MEXP = 19937 instance *)

Lemma parity19937_nonzero :
  Exists (fun p => p <> 0)
    (parity PARITY1_19937 PARITY2_19937 PARITY3_19937 PARITY4_19937).
Proof. apply Exists_cons_hd. vm_compute. discriminate. Defined.

Lemma raw_instance_wf v i : is_u32 v -> wf_state N19937 (state (raw_instance v i)).
Proof.
  intros Hv. split; [reflexivity|]. apply Forall_replicate, Hv.
Defined.

(** C1 at seed 1234: one instance starts from zeroed storage, the other
    from storage full of ones with a stray index; both are then filled,
    reseeded by key and filled again. *)
Lemma determinism_witness :
  0 < N19937
  /\ length (state (raw_instance 0 0)) = Z.to_nat (SFMT_N32 N19937)
  /\ length (state (raw_instance 0xffffffff 5)) = Z.to_nat (SFMT_N32 N19937)
  /\ operator_eq N19937
       (sfmt_init_gen_rand N19937 PARITY1_19937 PARITY2_19937 PARITY3_19937
          PARITY4_19937 1234 (raw_instance 0 0))
       (sfmt_init_gen_rand N19937 PARITY1_19937 PARITY2_19937 PARITY3_19937
          PARITY4_19937 1234 (raw_instance 0xffffffff 5)) = true
  /\ Forall2 (agree N19937)
       (drive N19937 PARITY1_19937 PARITY2_19937 PARITY3_19937 PARITY4_19937
          POS1_19937 xor_recursion
          [FillArray32 624; InitByArray sample_key 4; FillArray64 312]
          (sfmt_init_gen_rand N19937 PARITY1_19937 PARITY2_19937
             PARITY3_19937 PARITY4_19937 1234 (raw_instance 0 0)))
       (drive N19937 PARITY1_19937 PARITY2_19937 PARITY3_19937 PARITY4_19937
          POS1_19937 xor_recursion
          [FillArray32 624; InitByArray sample_key 4; FillArray64 312]
          (sfmt_init_gen_rand N19937 PARITY1_19937 PARITY2_19937
             PARITY3_19937 PARITY4_19937 1234 (raw_instance 0xffffffff 5))).
Proof.
  assert (HN : 0 < N19937) by (unfold N19937; lia).
  split; [exact HN|]. split; [reflexivity|]. split; [reflexivity|].
  apply (determinism N19937 PARITY1_19937 PARITY2_19937 PARITY3_19937
           PARITY4_19937 POS1_19937 xor_recursion 1234 _
           (raw_instance 0 0) (raw_instance 0xffffffff 5) HN eq_refl eq_refl).
Defined.

(** C2 at seed 1234 and at the sample key. *)
Lemma seeding_period_invariant_witness :
  0 < N19937
  /\ parity_fold PARITY1_19937 PARITY2_19937 PARITY3_19937 PARITY4_19937
       (state (sfmt_init_gen_rand N19937 PARITY1_19937 PARITY2_19937
                 PARITY3_19937 PARITY4_19937 1234 (raw_instance 0 0))) = 1
  /\ exists g',
       sfmt_init_by_array N19937 PARITY1_19937 PARITY2_19937 PARITY3_19937
         PARITY4_19937 sample_key 4 (raw_instance 0 0) = Ok g'
       /\ parity_fold PARITY1_19937 PARITY2_19937 PARITY3_19937 PARITY4_19937
            (state g') = 1.
Proof.
  assert (HN : 0 < N19937) by (unfold N19937; lia).
  destruct (seeding_period_invariant N19937 PARITY1_19937 PARITY2_19937
              PARITY3_19937 PARITY4_19937 HN parity19937_nonzero)
    as [Hscalar Harray].
  split; [exact HN|]. split.
  - exact (proj1 (Hscalar 1234 (raw_instance 0 0) eq_refl)).
  - destruct (Harray sample_key (raw_instance 0 0)) as (g' & Hrun & Hfold & _).
    exists g'. split; [exact Hrun|exact Hfold].
Defined.

(** C3 at seed 1234. *)
Lemma sfmt_init_gen_rand_scalar_seeding_witness :
  0 < N19937
  /\ length (state (raw_instance 0 0)) = Z.to_nat (SFMT_N32 N19937)
  /\ exists word : list Z,
       length word = Z.to_nat (SFMT_N32 N19937)
       /\ rd word 0 = 1234
       /\ (forall i, 1 <= i < SFMT_N32 N19937 ->
             rd word i
             = u32 (1812433253
                    * Z.lxor (rd word (i - 1)) (Z.shiftr (rd word (i - 1)) 30)
                    + i))
       /\ sfmt_init_gen_rand N19937 PARITY1_19937 PARITY2_19937 PARITY3_19937
            PARITY4_19937 1234 (raw_instance 0 0)
          = period_certification PARITY1_19937 PARITY2_19937 PARITY3_19937
              PARITY4_19937 (mk_sfmt word (SFMT_N32 N19937))
       /\ idx (sfmt_init_gen_rand N19937 PARITY1_19937 PARITY2_19937
                 PARITY3_19937 PARITY4_19937 1234 (raw_instance 0 0))
          = SFMT_N32 N19937.
Proof.
  assert (HN : 0 < N19937) by (unfold N19937; lia).
  split; [exact HN|]. split; [reflexivity|].
  exact (sfmt_init_gen_rand_scalar_seeding N19937 PARITY1_19937 PARITY2_19937
           PARITY3_19937 PARITY4_19937 1234 (raw_instance 0 0) HN eq_refl).
Defined.

(** C5 at the sample key: 623 steps follow the initial mixing, the first
    four of them injecting a key element. *)
Lemma init_by_array_schedule_witness :
  0 < N19937
  /\ lag_of (N19937 * 4) = 11
  /\ Z.quot (N19937 * 4 - lag_of (N19937 * 4)) 2 = 306
  /\ exists s,
       init_by_array_phase1 N19937 sample_key 4 = Ok s
       /\ m_j s = Z.max (4 + 1) (SFMT_N32 N19937) - 1
       /\ m_i s = (1 + 623) mod SFMT_N32 N19937.
Proof.
  assert (HN : 0 < N19937) by (unfold N19937; lia).
  pose proof (init_by_array_schedule N19937 sample_key HN) as H.
  cbv zeta in H.
  destruct H as (_ & _ & _ & _ & _ & Hrun & Hj & Hi & _).
  split; [exact HN|]. split; [reflexivity|]. split; [reflexivity|].
  eexists. split; [exact Hrun|]. split; [exact Hj|].
  apply (Hi 623). vm_compute. split; discriminate.
Defined.

(** C5 as stated, at the empty key: the claim has [max(L+1, N32) = 624]
    diffusion steps after the initial mixing, the loops run 623. *)
Lemma init_by_array_step_count_counterexample :
  exists s,
    init_by_array_phase1 N19937 [] 0 = Ok s
    /\ m_j s = 623
    /\ Z.max (0 + 1) (SFMT_N32 N19937) = 624
    /\ m_j s <> Z.max (0 + 1) (SFMT_N32 N19937).
Proof.
  assert (HN : 0 < N19937) by (unfold N19937; lia).
  destruct (phase1_steps N19937 [] HN) as (s & Hrun & Hj).
  exists s. split; [exact Hrun|].
  change (Z.max (Z.of_nat (length (@nil Z)) + 1) (SFMT_N32 N19937) - 1)
    with 623 in Hj.
  split; [exact Hj|]. split; [reflexivity|].
  rewrite Hj. vm_compute. discriminate.
Qed.

(** C6 at the sample key. *)
Lemma init_by_array_second_phase_witness :
  0 < N19937
  /\ exists s1,
       init_by_array_phase1 N19937 sample_key 4 = Ok s1
       /\ sfmt_init_by_array N19937 PARITY1_19937 PARITY2_19937 PARITY3_19937
            PARITY4_19937 sample_key 4 (raw_instance 0 0)
          = Ok (period_certification PARITY1_19937 PARITY2_19937
                  PARITY3_19937 PARITY4_19937
                  (mk_sfmt
                     (m_psfmt32
                        (for_range 0 (SFMT_N32 N19937)
                           (fun _ s => fin_step N19937 306 11 s) (reset_j s1)))
                     (SFMT_N32 N19937)))
       /\ m_j (for_range 0 (SFMT_N32 N19937)
                 (fun _ s => fin_step N19937 306 11 s) (reset_j s1))
          = SFMT_N32 N19937.
Proof.
  assert (HN : 0 < N19937) by (unfold N19937; lia).
  pose proof (init_by_array_second_phase N19937 PARITY1_19937 PARITY2_19937
                PARITY3_19937 PARITY4_19937 sample_key (raw_instance 0 0) HN)
    as H.
  cbv zeta in H. destruct H as (s1 & Hph & _ & [Hrun Hj] & _).
  split; [exact HN|]. exists s1. split; [exact Hph|].
  split; [exact Hrun|exact Hj].
Defined.

(** C6 as stated, at the empty key: the first step of the [func2] pass
    leaves its result in word [i] as it is, not XORed into the word that was
    there. *)
Lemma second_phase_overwrites_counterexample :
  exists s1,
    init_by_array_phase1 N19937 [] 0 = Ok s1
    /\ m_i s1 = 0
    /\ rd (m_psfmt32 (fin_step N19937 306 11 (reset_j s1))) 0
       = m_r (fin_step N19937 306 11 (reset_j s1))
    /\ rd (m_psfmt32 (fin_step N19937 306 11 (reset_j s1))) 0
       <> Z.lxor (rd (m_psfmt32 s1) 0)
                 (m_r (fin_step N19937 306 11 (reset_j s1))).
Proof.
  eexists. split; [vm_compute; reflexivity|].
  split; [reflexivity|]. split; vm_compute; [reflexivity|discriminate].
Qed.

(** C7 on a freshly seeded index: 624 words pass, 622 and 626 do not. *)
Lemma fill_array_preconditions_witness :
  0 < N19937
  /\ (exists g' out,
        sfmt_fill_array32 N19937 POS1_19937 xor_recursion 624
          (raw_instance 0 624) = Ok (g', out)
        /\ idx g' = SFMT_N32 N19937)
  /\ sfmt_fill_array32 N19937 POS1_19937 xor_recursion 626
       (raw_instance 0 624) = AssertFail
  /\ sfmt_fill_array64 N19937 POS1_19937 xor_recursion 310
       (raw_instance 0 624) = AssertFail.
Proof.
  assert (HN : 0 < N19937) by (unfold N19937; lia).
  split; [exact HN|]. split; [|split].
  - pose proof (fill_array_preconditions N19937 POS1_19937 xor_recursion
                  (raw_instance 0 624) 624 HN) as H.
    cbv zeta in H. destruct H as (_ & Hok & _). apply Hok.
    split; [reflexivity|]. split; [exists 156; split; reflexivity|].
    vm_compute. discriminate.
  - pose proof (fill_array_preconditions N19937 POS1_19937 xor_recursion
                  (raw_instance 0 624) 626 HN) as H.
    cbv zeta in H. destruct H as (Hfail & _). apply Hfail.
    intros (_ & (k & Hk & Hsize) & _). lia.
  - pose proof (fill_array_preconditions N19937 POS1_19937 xor_recursion
                  (raw_instance 0 624) 310 HN) as H.
    cbv zeta in H. destruct H as (_ & _ & Hfail & _). apply Hfail.
    intros (_ & _ & Hle). vm_compute in Hle. apply Hle. reflexivity.
Defined.

(** C8 on two instances that differ in every word: the loop returns at
    word 0. *)
Lemma equality_contract_witness :
  wf_state N19937 (state (raw_instance 0 624))
  /\ wf_state N19937 (state (raw_instance 1 624))
  /\ (operator_eq N19937 (raw_instance 0 624) (raw_instance 1 624) = true
      <-> raw_instance 0 624 = raw_instance 1 624)
  /\ cmp_loop (Z.to_nat N19937) 0 (state (raw_instance 0 624))
       (state (raw_instance 1 624)) = Some 0
  /\ operator_ne N19937 (raw_instance 0 624) (raw_instance 1 624)
     = negb (operator_eq N19937 (raw_instance 0 624) (raw_instance 1 624)).
Proof.
  assert (H0 : is_u32 0) by (unfold is_u32; lia).
  assert (H1 : is_u32 1) by (unfold is_u32; lia).
  pose proof (raw_instance_wf 0 624 H0) as HA.
  pose proof (raw_instance_wf 1 624 H1) as HB.
  destruct (equality_contract N19937 (raw_instance 0 624) (raw_instance 1 624)
              HA HB) as (_ & Hiff & Hfirst & Hne).
  split; [exact HA|]. split; [exact HB|]. split; [exact Hiff|].
  split; [|exact Hne].
  apply Hfirst.
  - unfold N19937. lia.
  - vm_compute. discriminate.
  - intros k' Hk'. lia.
Defined.

(** C9 at the parameter set. *)
Lemma init_by_array_empty_key_witness :
  0 < N19937
  /\ Exists (fun p => p <> 0)
       (parity PARITY1_19937 PARITY2_19937 PARITY3_19937 PARITY4_19937)
  /\ exists g',
       sfmt_init_by_array N19937 PARITY1_19937 PARITY2_19937 PARITY3_19937
         PARITY4_19937 [] 0 (raw_instance 0 0) = Ok g'
       /\ parity_fold PARITY1_19937 PARITY2_19937 PARITY3_19937 PARITY4_19937
            (state g') = 1
       /\ idx g' = SFMT_N32 N19937
       /\ wf_state N19937 (state g').
Proof.
  assert (HN : 0 < N19937) by (unfold N19937; lia).
  split; [exact HN|]. split; [exact parity19937_nonzero|].
  exact (proj2 (proj2 (init_by_array_empty_key N19937 PARITY1_19937
                         PARITY2_19937 PARITY3_19937 PARITY4_19937
                         (raw_instance 0 0) HN parity19937_nonzero))).
Defined.

(** * Further concrete instances *)

(** X1 at seed 1234 and the sample key. *)
Lemma seeding_establishes_wf_witness :
  0 < N19937 /\ is_u32 1234
  /\ length (state (raw_instance 0 0)) = Z.to_nat (SFMT_N32 N19937)
  /\ wf_state N19937
       (state (sfmt_init_gen_rand N19937 PARITY1_19937 PARITY2_19937
                 PARITY3_19937 PARITY4_19937 1234 (raw_instance 0 0)))
  /\ exists g',
       sfmt_init_by_array N19937 PARITY1_19937 PARITY2_19937 PARITY3_19937
         PARITY4_19937 sample_key 4 (raw_instance 0 0) = Ok g'
       /\ wf_state N19937 (state g') /\ idx g' = SFMT_N32 N19937.
Proof.
  assert (HN : 0 < N19937) by (unfold N19937; lia).
  assert (Hs : is_u32 1234) by (unfold is_u32; lia).
  destruct (seeding_establishes_wf N19937 PARITY1_19937 PARITY2_19937
              PARITY3_19937 PARITY4_19937 1234 sample_key (raw_instance 0 0)
              HN Hs eq_refl) as [[Hwf _] Harr].
  split; [exact HN|]. split; [exact Hs|]. split; [reflexivity|].
  split; [exact Hwf|exact Harr].
Defined.

(** X2: two words after the sample key do not matter. *)
Lemma init_by_array_reads_prefix_witness :
  4 <= Z.of_nat (length sample_key)
  /\ sfmt_init_by_array N19937 PARITY1_19937 PARITY2_19937 PARITY3_19937
       PARITY4_19937 (sample_key ++ [7; 8]) 4 (raw_instance 0 0)
     = sfmt_init_by_array N19937 PARITY1_19937 PARITY2_19937 PARITY3_19937
         PARITY4_19937 sample_key 4 (raw_instance 0 0).
Proof.
  assert (H : 4 <= Z.of_nat (length sample_key)) by (cbn; lia).
  split; [exact H|].
  exact (init_by_array_reads_prefix N19937 PARITY1_19937 PARITY2_19937
           PARITY3_19937 PARITY4_19937 sample_key [7; 8] 4 (raw_instance 0 0)
           H).
Defined.

(** X5: the top bit of word 5 of a zeroed instance. *)
Lemma operator_eq_detects_bit_flip_witness :
  wf_state N19937 (state (raw_instance 0 624))
  /\ operator_eq N19937 (raw_instance 0 624)
       (mk_sfmt (flip_bit (state (raw_instance 0 624)) 5 31)
                (idx (raw_instance 0 624))) = false.
Proof.
  assert (H0 : is_u32 0) by (unfold is_u32; lia).
  pose proof (raw_instance_wf 0 624 H0) as Hwf.
  split; [exact Hwf|].
  apply (operator_eq_detects_bit_flip N19937 (raw_instance 0 624) 5 31 Hwf).
  - unfold SFMT_N32, N19937. lia.
  - lia.
Defined.

(** X6 after seeding with 1234. *)
Lemma bulk_fill_after_any_call_witness :
  0 < N19937
  /\ exists h o,
       sfmt_fill_array32 N19937 POS1_19937 xor_recursion
         (sfmt_get_min_array_size32 N19937)
         (sfmt_init_gen_rand N19937 PARITY1_19937 PARITY2_19937 PARITY3_19937
            PARITY4_19937 1234 (raw_instance 0 0)) = Ok (h, o).
Proof.
  assert (HN : 0 < N19937) by (unfold N19937; lia).
  split; [exact HN|].
  exact (proj1 (proj2 (proj2 (proj2
           (bulk_fill_after_any_call N19937 PARITY1_19937 PARITY2_19937
              PARITY3_19937 PARITY4_19937 POS1_19937 xor_recursion
              (InitGenRand 1234) (raw_instance 0 0) _ [] HN eq_refl))))).
Defined.

(** X8 at the parameter set: its first parity word is 1. *)
Lemma period_certification_toggles_word0_witness :
  Z.odd PARITY1_19937 = true
  /\ period_certification PARITY1_19937 PARITY2_19937 PARITY3_19937
       PARITY4_19937 (raw_instance 0 0)
     = mk_sfmt (wr (state (raw_instance 0 0)) 0 1) 0.
Proof.
  split; [reflexivity|].
  rewrite (period_certification_toggles_word0 PARITY1_19937 PARITY2_19937
             PARITY3_19937 PARITY4_19937 (raw_instance 0 0) eq_refl).
  reflexivity.
Defined.

(** X10 at the seeds 1234 and 4321. *)
Lemma distinct_seeds_distinct_instances_witness :
  0 < N19937 /\ 1234 <> 4321
  /\ operator_eq N19937
       (sfmt_init_gen_rand N19937 PARITY1_19937 PARITY2_19937 PARITY3_19937
          PARITY4_19937 1234 (raw_instance 0 0))
       (sfmt_init_gen_rand N19937 PARITY1_19937 PARITY2_19937 PARITY3_19937
          PARITY4_19937 4321 (raw_instance 0 0)) = false.
Proof.
  assert (HN : 0 < N19937) by (unfold N19937; lia).
  assert (H1 : is_u32 1234) by (unfold is_u32; lia).
  assert (H2 : is_u32 4321) by (unfold is_u32; lia).
  assert (Hne : 1234 <> 4321) by lia.
  split; [exact HN|]. split; [exact Hne|].
  exact (proj1 (distinct_seeds_distinct_instances N19937 PARITY1_19937
                  PARITY2_19937 PARITY3_19937 PARITY4_19937 1234 4321
                  (raw_instance 0 0) (raw_instance 0 0) HN H1 H2
                  eq_refl eq_refl Hne)).
Defined.

(** X11 at the parameter set: [mid = 306], [mid + lag = 317]. *)
Lemma init_by_array_indices_in_bounds_witness :
  0 < N19937
  /\ 0 <= Z.quot (N19937 * 4 - lag_of (N19937 * 4)) 2 < SFMT_N32 N19937
  /\ 0 <= Z.quot (N19937 * 4 - lag_of (N19937 * 4)) 2 + lag_of (N19937 * 4)
     < SFMT_N32 N19937.
Proof.
  assert (HN : 0 < N19937) by (unfold N19937; lia).
  pose proof (init_by_array_indices_in_bounds N19937 HN) as H.
  cbv zeta in H. destruct H as (Hmid & Hsum & _).
  split; [exact HN|]. split; [exact Hmid|exact Hsum].
Defined.

(** X12 on a zeroed instance, whose fold is 0. *)
Lemma period_certification_fixed_points_witness :
  Exists (fun p => p <> 0)
    (parity PARITY1_19937 PARITY2_19937 PARITY3_19937 PARITY4_19937)
  /\ (4 <= length (state (raw_instance 0 0)))%nat
  /\ (period_certification PARITY1_19937 PARITY2_19937 PARITY3_19937
        PARITY4_19937 (raw_instance 0 0) = raw_instance 0 0
      <-> inner_bit PARITY1_19937 PARITY2_19937 PARITY3_19937 PARITY4_19937
            (state (raw_instance 0 0)) = 1).
Proof.
  assert (Hlen : (4 <= length (state (raw_instance 0 0)))%nat)
    by (unfold raw_instance; cbn [state]; rewrite length_replicate; lia).
  split; [exact parity19937_nonzero|]. split; [exact Hlen|].
  exact (period_certification_fixed_points PARITY1_19937 PARITY2_19937
           PARITY3_19937 PARITY4_19937 (raw_instance 0 0)
           parity19937_nonzero Hlen).
Defined.

